(** * kubicorn: the AWS route-table resource (cloud/amazon/resources/routetable.go)

    A shallow embedding of the six methods of [*RouteTable] (Actual, Expected,
    Apply, Delete, Render, Tag) over an explicit store of resource objects and
    an explicit log of the requests sent to the EC2 client, followed by the
    properties of the reconciliation contract.

    Go values are modelled as follows.
    - [string] is [string]; [map[string]string] is [gmap string string] (a nil
      map and an empty map read the same and are both [∅]).
    - A [*T] that the code dereferences is [option T]; dereferencing [None]
      is a run-time panic, as is indexing a slice out of range.
    - [*RouteTable] values (receivers, snapshots, cache fields) are locations
      in a store, so that aliasing between the arguments of a method, its
      receiver and the cache fields is visible.
    - A method returning [(T, error)] is a computation whose outcome is a
      value, an error, or a panic. *)

From stdpp Require Import gmap strings list fin_maps.

Open Scope string_scope.

(** ** The cluster model (package [apis/cluster]) *)

Module cluster.

(** Modelled from the spec: the declarations of package [cluster] (section 3,
    "Subnet: Name, Identifier"). *)
Record Subnet := {
  Subnet_Name : string;
  Subnet_Identifier : string;
}.

(** Modelled from the spec: "ServerPool: Name, Identifier, set of Subnet";
    the code ranges over [sp.Subnets] in order. *)
Record ServerPool := {
  ServerPool_Name : string;
  ServerPool_Identifier : string;
  Subnets : list Subnet;
}.

(** Modelled from the spec: "Network{Identifier}". *)
Record Network := {
  Network_Identifier : string;
}.

(** Modelled from the spec: "Cluster: root aggregate; holds
    Network{Identifier}, ordered sequence of ServerPool"; [Name] is read by
    Expected and Apply. *)
Record Cluster := {
  Name : string;
  Network_ : Network;
  ServerPools : list ServerPool;
}.

End cluster.

(** ** The EC2 client (package [aws-sdk-go/service/ec2]) *)

Module ec2.

Record Filter := {
  Filter_Name : string;
  Values : list string;
}.

Record Tag := {
  Key : option string;
  Value : option string;
}.

Record RouteTableAssociation := {
  RouteTableAssociationId : option string;
}.

Record RouteTable := {
  RouteTableId : option string;
  Tags : list (option Tag);
  Associations : list (option RouteTableAssociation);
}.

Record InternetGateway := {
  InternetGatewayId : option string;
}.

(** The request structures the resource builds, one constructor per
    [ec2.*Input] type. Fields that the code fills from a provider response
    without dereferencing them stay nullable. *)
Inductive request :=
| DescribeRouteTablesInput (Filters : list Filter)
| CreateRouteTableInput (VpcId : string)
| DescribeInternetGatewaysInput (Filters : list Filter)
| CreateRouteInput (DestinationCidrBlock : string)
                   (GatewayId RouteTableId : option string)
| AssociateRouteTableInput (SubnetId : string) (RouteTableId : option string)
| DisassociateRouteTableInput (AssociationId : option string)
| DeleteRouteTableInput (RouteTableId : option string)
| CreateTagsInput (Resources : list string) (Tags : list Tag).

(** The error value of a failed call; its contents are the provider's. *)
Definition awserr := string.

(** The client [Sdk.Ec2]. The provider is any deterministic function of the
    requests sent so far and the current request: it answers with an error
    or with the output structure of the call. *)
Record API := {
  DescribeRouteTables :
    list request → list Filter → awserr + list (option RouteTable);
  CreateRouteTable :
    list request → string → awserr + option RouteTable;
  DescribeInternetGateways :
    list request → list Filter → awserr + list (option InternetGateway);
  CreateRoute :
    list request → string → option string → option string → option awserr;
  AssociateRouteTable :
    list request → string → option string → option awserr;
  DisassociateRouteTable :
    list request → option string → option awserr;
  DeleteRouteTable :
    list request → option string → option awserr;
  CreateTags :
    list request → list string → list Tag → option awserr;
}.

End ec2.

(** ** Resource objects *)

(** A [*RouteTable]: an index into the store. *)
Abbreviation loc := nat (only parsing).

(** The embedded struct [Shared] is declared elsewhere in the package; its
    fields are the ones the methods of this file read and write. The three
    [cloud.Resource] fields are interface values: [None] is nil. *)
Record Shared := {
  Name : string;
  CloudID : string;
  Tags : gmap string string;
  TagResource : option loc;
  CachedActual : option loc;
  CachedExpected : option loc;
}.

Record RouteTable := {
  RouteTable_Shared :> Shared;
  ClusterSubnet : option cluster.Subnet;
  ServerPool : option cluster.ServerPool;
}.

(** The zero value [Shared{}] and [RouteTable{}]. *)
Definition Shared_zero : Shared :=
  {| Name := ""; CloudID := ""; Tags := ∅; TagResource := None;
     CachedActual := None; CachedExpected := None |}.

Definition RouteTable_zero : RouteTable :=
  {| RouteTable_Shared := Shared_zero; ClusterSubnet := None;
     ServerPool := None |}.

(** Field assignments [x.F = v]. *)
Definition set_Name (v : string) (r : RouteTable) : RouteTable :=
  {| RouteTable_Shared :=
       {| Name := v; CloudID := CloudID r; Tags := Tags r;
          TagResource := TagResource r; CachedActual := CachedActual r;
          CachedExpected := CachedExpected r |};
     ClusterSubnet := ClusterSubnet r; ServerPool := ServerPool r |}.

Definition set_CloudID (v : string) (r : RouteTable) : RouteTable :=
  {| RouteTable_Shared :=
       {| Name := Name r; CloudID := v; Tags := Tags r;
          TagResource := TagResource r; CachedActual := CachedActual r;
          CachedExpected := CachedExpected r |};
     ClusterSubnet := ClusterSubnet r; ServerPool := ServerPool r |}.

Definition set_Tags (v : gmap string string) (r : RouteTable) : RouteTable :=
  {| RouteTable_Shared :=
       {| Name := Name r; CloudID := CloudID r; Tags := v;
          TagResource := TagResource r; CachedActual := CachedActual r;
          CachedExpected := CachedExpected r |};
     ClusterSubnet := ClusterSubnet r; ServerPool := ServerPool r |}.

Definition set_CachedActual (v : option loc) (r : RouteTable) : RouteTable :=
  {| RouteTable_Shared :=
       {| Name := Name r; CloudID := CloudID r; Tags := Tags r;
          TagResource := TagResource r; CachedActual := v;
          CachedExpected := CachedExpected r |};
     ClusterSubnet := ClusterSubnet r; ServerPool := ServerPool r |}.

Definition set_CachedExpected (v : option loc) (r : RouteTable) : RouteTable :=
  {| RouteTable_Shared :=
       {| Name := Name r; CloudID := CloudID r; Tags := Tags r;
          TagResource := TagResource r; CachedActual := CachedActual r;
          CachedExpected := v |};
     ClusterSubnet := ClusterSubnet r; ServerPool := ServerPool r |}.

(** ** Errors *)

(** The error values the methods return. An error of the provider or of the
    comparator is passed on as it is; the other four are the [fmt.Errorf]
    calls of the file, with the arguments of their format strings. *)
Inductive error :=
| TransportFault (e : ec2.awserr)
| CompareFault (e : string)
(* "Found [%d] Route Tables for VPC ID [%s]" *)
| FoundRouteTables (n : nat) (id : string)
(* "Found [%d] Internet Gateways for ID [%s]" *)
| FoundInternetGateways (n : nat) (id : string)
(* "Unable to find subnet id" *)
| UnableToFindSubnetId
(* "Unable to delete routetable resource without ID [%s]" *)
| UnableToDeleteWithoutID (name : string).

(** The taxonomy of the design (section 7). *)
Inductive fault := Transport | Cardinality | MissingPrerequisite
                 | MissingIdentifier | Comparison.

Definition fault_of (e : error) : fault :=
  match e with
  | TransportFault _ => Transport
  | CompareFault _ => Comparison
  | FoundRouteTables _ _ | FoundInternetGateways _ _ => Cardinality
  | UnableToFindSubnetId => MissingPrerequisite
  | UnableToDeleteWithoutID _ => MissingIdentifier
  end.

(** ** Computations *)

(** The state a method runs in: the store of resource objects and the
    requests sent to the provider so far, oldest first. *)
Record state := {
  heap : list RouteTable;
  calls : list ec2.request;
}.

(** How a call ends: with a value, with an error, or in a panic. After a
    panic the store is gone; the requests already sent are not. *)
Inductive outcome (A : Type) :=
| Ok (a : A) (st : state)
| Err (e : error) (st : state)
| Panic (sent : list ec2.request).
Arguments Ok {A} a st.
Arguments Err {A} e st.
Arguments Panic {A} sent.

Definition M (A : Type) : Type := state → outcome A.

Definition ret {A} (a : A) : M A := λ st, Ok a st.

Definition bind {A B} (m : M A) (k : A → M B) : M B :=
  λ st, match m st with
        | Ok a st' => k a st'
        | Err e st' => Err e st'
        | Panic sent => Panic sent
        end.

Notation "x <- c1 ;; c2" := (bind c1 (λ x, c2))
  (at level 100, c1 at next level, right associativity).
Notation "c1 ;; c2" := (bind c1 (λ _, c2))
  (at level 100, right associativity).

Definition fail {A} (e : error) : M A := λ st, Err e st.
Definition panic {A} : M A := λ st, Panic (calls st).

(** [*p] for a nullable pointer. *)
Definition deref {A} (p : option A) : M A :=
  match p with Some a => ret a | None => panic end.

(** Reading the object behind a [*RouteTable]. A location outside the store
    stands for a nil pointer or for a [cloud.Resource] that is no
    [*RouteTable]: using it panics. *)
Definition load (l : loc) : M RouteTable :=
  λ st, match heap st !! l with
        | Some r => Ok r st
        | None => Panic (calls st)
        end.

(** Assigning to fields of the object behind a [*RouteTable]. *)
Definition modify (l : loc) (f : RouteTable → RouteTable) : M unit :=
  λ st, match heap st !! l with
        | Some r => Ok tt {| heap := <[l := f r]> (heap st); calls := calls st |}
        | None => Panic (calls st)
        end.

(** [&RouteTable{...}]: a fresh object. *)
Definition alloc (r : RouteTable) : M loc :=
  λ st, Ok (length (heap st))
           {| heap := heap st ++ [r]; calls := calls st |}.

(** Sending a request: it is logged, and the provider's answer depends on
    the requests before it. *)
Definition send {A} (req : ec2.request)
    (answer : list ec2.request → ec2.awserr + A) : M A :=
  λ st, let st' := {| heap := heap st; calls := calls st ++ [req] |} in
        match answer (calls st) with
        | inl e => Err (TransportFault e) st'
        | inr a => Ok a st'
        end.

Definition ack (o : option ec2.awserr) : ec2.awserr + unit :=
  match o with Some e => inl e | None => inr tt end.

(** The state an outcome leaves behind, when the process is still there. *)
Definition final {A} (o : outcome A) : option state :=
  match o with
  | Ok _ st | Err _ st => Some st
  | Panic _ => None
  end.

(** The requests that have reached the provider when the call ends. *)
Definition sent {A} (o : outcome A) : list ec2.request :=
  match o with
  | Ok _ st | Err _ st => calls st
  | Panic reqs => reqs
  end.

(** ** The methods of [*RouteTable] *)

(** The key of the identity tag of a route table. *)
Definition subnet_pair_key : string := "kubicorn-route-table-subnet-pair".

(** [for _, tag := range rt.Tags { actual.Tags[*tag.Key] = *tag.Value }]:
    later entries overwrite earlier ones; a nil tag, key or value panics. *)
Fixpoint copyTags (tags : list (option ec2.Tag)) (m : gmap string string)
    : option (gmap string string) :=
  match tags with
  | [] => Some m
  | Some {| ec2.Key := Some key; ec2.Value := Some val |} :: rest =>
      copyTags rest (<[key := val]> m)
  | _ :: _ => None
  end.

(** The inner loop of Apply's subnet search:
    [for _, sn := range sp.Subnets { if sn.Name == name { subnetID = sn.Identifier } }]. *)
Definition scanSubnets (name : string) (subnetID : string)
    (subnets : list cluster.Subnet) : string :=
  foldl (λ id sn, if decide (cluster.Subnet_Name sn = name)
                  then cluster.Subnet_Identifier sn else id)
        subnetID subnets.

(** The outer loop:
    [for _, sp := range applyCluster.ServerPools { if sp.Name == name { ... } }],
    started from [subnetID := ""]. *)
Definition scanServerPools (name : string) (pools : list cluster.ServerPool)
    : string :=
  foldl (λ id sp, if decide (cluster.ServerPool_Name sp = name)
                  then scanSubnets name id (cluster.Subnets sp) else id)
        "" pools.

Section Methods.

(** The package helper [S(format, a...)], which formats and returns the
    address of the result; it is declared outside this file. *)
Variable S : string → list string → string.

(** [compare.IsEqual], declared outside this file: an error or a verdict on
    the two objects. *)
Variable IsEqual : RouteTable → RouteTable → string + bool.

(** The global client [Sdk.Ec2]. *)
Variable Sdk : ec2.API.

Definition pairFilter (subnet : cluster.Subnet) : list ec2.Filter :=
  [ {| ec2.Filter_Name := S "tag:kubicorn-route-table-subnet-pair" [];
       ec2.Values := [ S (cluster.Subnet_Name subnet) [] ] |} ].

Definition gatewayFilter (c : cluster.Cluster) : list ec2.Filter :=
  [ {| ec2.Filter_Name := S "tag:kubicorn-internet-gateway-name" [];
       ec2.Values := [ S (cluster.Name c) [] ] |} ].

Definition Actual (r : loc) (known : cluster.Cluster) : M loc :=
  this <- load r ;;
  match CachedActual this with
  | Some cached => ret cached
  | None =>
    actual <- alloc {| RouteTable_Shared :=
                         {| Name := Name this; CloudID := ""; Tags := ∅;
                            TagResource := TagResource this;
                            CachedActual := None; CachedExpected := None |};
                       ClusterSubnet := None; ServerPool := None |} ;;
    subnet <- deref (ClusterSubnet this) ;;
    (if decide (cluster.Subnet_Identifier subnet ≠ "") then
       output <- send (ec2.DescribeRouteTablesInput (pairFilter subnet))
                      (λ h, ec2.DescribeRouteTables Sdk h (pairFilter subnet)) ;;
       let llc := length output in
       if decide (llc ≠ 1) then
         fail (FoundRouteTables llc (cluster.Subnet_Identifier subnet))
       else
         rt0 <- deref (output !! 0) ;;
         rt <- deref rt0 ;;
         tags <- deref (copyTags (ec2.Tags rt) ∅) ;;
         modify actual (set_Tags tags) ;;
         modify actual (set_Name (cluster.Subnet_Name subnet)) ;;
         modify actual (set_CloudID (cluster.Subnet_Name subnet))
     else ret tt) ;;
    modify r (set_CachedActual (Some actual)) ;;
    ret actual
  end.

Definition Expected (r : loc) (known : cluster.Cluster) : M loc :=
  this <- load r ;;
  match CachedExpected this with
  | Some cached => ret cached
  | None =>
    subnet <- deref (ClusterSubnet this) ;;
    pool <- deref (ServerPool this) ;;
    expected <- alloc {| RouteTable_Shared :=
                           {| Tags :=
                                <["Name" := Name this]>
                                (<["KubernetesCluster" := cluster.Name known]>
                                (<["kubicorn-route-table-subnet-pair"
                                     := cluster.Subnet_Name subnet]> ∅));
                              Name := cluster.ServerPool_Name pool;
                              TagResource := TagResource this;
                              CloudID := cluster.ServerPool_Name pool;
                              CachedActual := None; CachedExpected := None |};
                         ClusterSubnet := None; ServerPool := None |} ;;
    modify r (set_CachedExpected (Some expected)) ;;
    ret expected
  end.

(** The request carries one tag per entry of the map; Go ranges over a map
    in no fixed order, the model in the order of [map_to_list]. *)
Definition Tag (r : loc) (tags : gmap string string) : M unit :=
  this <- load r ;;
  let tagInput_Tags :=
    (λ kv : string * string,
       {| ec2.Key := Some (S "%s" [kv.1]);
          ec2.Value := Some (S "%s" [kv.2]) |}) <$> map_to_list tags in
  send (ec2.CreateTagsInput [CloudID this] tagInput_Tags)
       (λ h, ack (ec2.CreateTags Sdk h [CloudID this] tagInput_Tags)).

(** The subnet search of Apply; [r.Name] is read once per server pool. *)
Definition findSubnetID (r : loc) (applyCluster : cluster.Cluster)
    : M string :=
  match cluster.ServerPools applyCluster with
  | [] => ret ""
  | pools => this <- load r ;; ret (scanServerPools (Name this) pools)
  end.

Definition Apply (r : loc) (actual expected : loc)
    (applyCluster : cluster.Cluster) : M loc :=
  let applyResource := expected in
  e <- load expected ;;
  a <- load actual ;;
  match IsEqual a e with
  | inl err => fail (CompareFault err)
  | inr true => ret applyResource
  | inr false =>
    (* --- Create Route Table *)
    let vpc := cluster.Network_Identifier (cluster.Network_ applyCluster) in
    rtOutput <- send (ec2.CreateRouteTableInput vpc)
                     (λ h, ec2.CreateRouteTable Sdk h vpc) ;;
    rt <- deref rtOutput ;;
    _ <- deref (ec2.RouteTableId rt) ;;
    (* --- Lookup Internet Gateway *)
    output <- send (ec2.DescribeInternetGatewaysInput
                      (gatewayFilter applyCluster))
                   (λ h, ec2.DescribeInternetGateways Sdk h
                           (gatewayFilter applyCluster)) ;;
    let lsn := length output in
    if decide (lsn ≠ 1) then
      this <- load r ;;
      pool <- deref (ServerPool this) ;;
      fail (FoundInternetGateways lsn (cluster.ServerPool_Identifier pool))
    else
      ig0 <- deref (output !! 0) ;;
      ig <- deref ig0 ;;
      _ <- deref (ec2.InternetGatewayId ig) ;;
      (* --- Map Route Table to Internet Gateway *)
      let cidr := S "0.0.0.0/0" [] in
      send (ec2.CreateRouteInput cidr (ec2.InternetGatewayId ig)
                                 (ec2.RouteTableId rt))
           (λ h, ack (ec2.CreateRoute Sdk h cidr (ec2.InternetGatewayId ig)
                                      (ec2.RouteTableId rt))) ;;
      subnetID <- findSubnetID r applyCluster ;;
      if decide (subnetID = "") then fail UnableToFindSubnetId
      else
        (* --- Associate Route table to this particular subnet *)
        send (ec2.AssociateRouteTableInput subnetID (ec2.RouteTableId rt))
             (λ h, ack (ec2.AssociateRouteTable Sdk h subnetID
                                                (ec2.RouteTableId rt))) ;;
        id <- deref (ec2.RouteTableId rt) ;;
        modify expected (set_CloudID id) ;;
        e' <- load expected ;;
        Tag expected (Tags e') ;;
        _ <- deref (ec2.RouteTableId rt) ;;
        e'' <- load expected ;;
        newResource <- alloc RouteTable_zero ;;
        modify newResource (set_CloudID (CloudID e'')) ;;
        e''' <- load expected ;;
        modify newResource (set_Name (Name e''')) ;;
        ret newResource
  end.

Definition Delete (r : loc) (actual : loc) (known : cluster.Cluster)
    : M loc :=
  let deleteResource := actual in
  d <- load deleteResource ;;
  if decide (CloudID d = "") then fail (UnableToDeleteWithoutID (Name d))
  else
    this <- load r ;;
    subnet <- deref (ClusterSubnet this) ;;
    output <- send (ec2.DescribeRouteTablesInput (pairFilter subnet))
                   (λ h, ec2.DescribeRouteTables Sdk h (pairFilter subnet)) ;;
    let llc := length output in
    if decide (llc ≠ 1) then
      fail (FoundRouteTables llc (cluster.Subnet_Identifier subnet))
    else
      rt0 <- deref (output !! 0) ;;
      rt <- deref rt0 ;;
      as0 <- deref (ec2.Associations rt !! 0) ;;
      assoc <- deref as0 ;;
      send (ec2.DisassociateRouteTableInput
              (ec2.RouteTableAssociationId assoc))
           (λ h, ack (ec2.DisassociateRouteTable Sdk h
                        (ec2.RouteTableAssociationId assoc))) ;;
      send (ec2.DeleteRouteTableInput (ec2.RouteTableId rt))
           (λ h, ack (ec2.DeleteRouteTable Sdk h (ec2.RouteTableId rt))) ;;
      newResource <- alloc RouteTable_zero ;;
      a <- load actual ;;
      modify newResource (set_Name (Name a)) ;;
      a' <- load actual ;;
      modify newResource (set_Tags (Tags a')) ;;
      ret newResource.

Definition Render (r : loc) (renderResource : loc)
    (renderCluster : cluster.Cluster) : M cluster.Cluster :=
  ret renderCluster.

End Methods.

(** ** The comparator *)

(** Modelled from the spec: [compare.IsEqual], which is not part of this
    file (section 4.2): "Equality(A, B) ⇔ A.Name == B.Name ∧ A.CloudID ==
    B.CloudID ∧ A.Tags and B.Tags contain the same keys with the same
    values (order irrelevant)". On two route-table snapshots it never
    reports a malformed input. *)
Definition compare_IsEqual (a b : RouteTable) : string + bool :=
  inr (bool_decide (Name a = Name b ∧ CloudID a = CloudID b ∧ Tags a = Tags b)).

(** ** Vocabulary of the properties *)

(** The remote route table [rt] carries the tag [k], with value [v] and no
    other. *)
Definition tagged (rt : ec2.RouteTable) (k v : string) : Prop :=
  Some {| ec2.Key := Some k; ec2.Value := Some v |} ∈ ec2.Tags rt
  ∧ ∀ v', Some {| ec2.Key := Some k; ec2.Value := Some v' |} ∈ ec2.Tags rt
          → v' = v.

(** The cloud identifiers a scan of the cluster's server pools and subnets
    finds for the subnet name [name]: those of the subnets so named whose
    identifier is populated. *)
Definition subnetIDsNamed (name : string) (c : cluster.Cluster)
    : list string :=
  filter (λ id, id ≠ "")
    (cluster.Subnet_Identifier <$>
       filter (λ sn, cluster.Subnet_Name sn = name)
              (cluster.ServerPools c ≫= cluster.Subnets)).

(** The three tags Expected puts on a route table. *)
Definition expectedTags (name clusterName subnetName : string)
    : gmap string string :=
  {[ "Name" := name;
     "KubernetesCluster" := clusterName;
     "kubicorn-route-table-subnet-pair" := subnetName ]}.

(** The object Actual builds for an identified subnet named [name], with
    the tags [tags] copied from the remote route table. *)
Definition actualSnapshot (this : RouteTable) (name : string)
    (tags : gmap string string) : RouteTable :=
  {| RouteTable_Shared :=
       {| Name := name; CloudID := name; Tags := tags;
          TagResource := TagResource this;
          CachedActual := None; CachedExpected := None |};
     ClusterSubnet := None; ServerPool := None |}.

(** The object Expected builds. *)
Definition expectedSnapshot (this : RouteTable) (known : cluster.Cluster)
    (subnet : cluster.Subnet) (pool : cluster.ServerPool) : RouteTable :=
  {| RouteTable_Shared :=
       {| Name := cluster.ServerPool_Name pool;
          CloudID := cluster.ServerPool_Name pool;
          Tags := expectedTags (Name this) (cluster.Name known)
                               (cluster.Subnet_Name subnet);
          TagResource := TagResource this;
          CachedActual := None; CachedExpected := None |};
     ClusterSubnet := None; ServerPool := None |}.

(** A step from [st] to [st'] leaves every object of the store as it was,
    except for the CloudID of the object at [l0]. *)
Definition only_CloudID_at (l0 : nat) (st st' : state) : Prop :=
  ∀ l (o : RouteTable), heap st !! l = Some o →
    heap st' !! l = Some o
    ∨ (l = l0 ∧ ∃ id, heap st' !! l = Some (set_CloudID id o)).

(** A well-formed tag of a remote object. *)
Definition tagEntry (k v : string) : option ec2.Tag :=
  Some {| ec2.Key := Some k; ec2.Value := Some v |}.

(** The error, if any, with which the provider answers the request [q] after
    the requests [h]. *)
Definition respond (Sdk : ec2.API) (h : list ec2.request) (q : ec2.request)
    : option ec2.awserr :=
  match q with
  | ec2.DescribeRouteTablesInput f =>
      match ec2.DescribeRouteTables Sdk h f with
      | inl e => Some e | inr _ => None
      end
  | ec2.CreateRouteTableInput vpc =>
      match ec2.CreateRouteTable Sdk h vpc with
      | inl e => Some e | inr _ => None
      end
  | ec2.DescribeInternetGatewaysInput f =>
      match ec2.DescribeInternetGateways Sdk h f with
      | inl e => Some e | inr _ => None
      end
  | ec2.CreateRouteInput cidr gw rt => ec2.CreateRoute Sdk h cidr gw rt
  | ec2.AssociateRouteTableInput sn rt => ec2.AssociateRouteTable Sdk h sn rt
  | ec2.DisassociateRouteTableInput a => ec2.DisassociateRouteTable Sdk h a
  | ec2.DeleteRouteTableInput rt => ec2.DeleteRouteTable Sdk h rt
  | ec2.CreateTagsInput rs ts => ec2.CreateTags Sdk h rs ts
  end.

(** The five requests of a creation, in the order Apply sends them: for the
    route table [rtid], the gateway [gw], the subnet [subnetID] and the tags
    [tags] put on the object [id]. *)
Definition creationRequests (S : string → list string → string)
    (c : cluster.Cluster) (rtid gw : option string) (subnetID id : string)
    (tags : list ec2.Tag) : list ec2.request :=
  [ ec2.CreateRouteTableInput
      (cluster.Network_Identifier (cluster.Network_ c));
    ec2.DescribeInternetGatewaysInput (gatewayFilter S c);
    ec2.CreateRouteInput (S "0.0.0.0/0" []) gw rtid;
    ec2.AssociateRouteTableInput subnetID rtid;
    ec2.CreateTagsInput [id] tags ].

(** The three requests of a deletion, in the order Delete sends them. *)
Definition deletionRequests (S : string → list string → string)
    (subnet : cluster.Subnet) (assoc rtid : option string)
    : list ec2.request :=
  [ ec2.DescribeRouteTablesInput (pairFilter S subnet);
    ec2.DisassociateRouteTableInput assoc;
    ec2.DeleteRouteTableInput rtid ].

(** ** A concrete cluster and provider

    The cluster of the end-to-end scenario of the design (section 8): network
    "vpc-1", one server pool "pool-a" with one subnet, and a provider on which
    every request succeeds. *)

Module Scenario.

(** [S] on the formats of this file: a literal without verbs is returned as
    it is, and "%s" with one argument is that argument. *)
Definition S (format : string) (a : list string) : string :=
  match a with
  | [] => format
  | x :: _ => x
  end.

(** A provider that answers every describe-route-tables request with
    [tables], creates the route table "rtb-1", knows one internet gateway
    "igw-1", and acknowledges everything else. *)
Definition provider (tables : list (option ec2.RouteTable)) : ec2.API :=
  {| ec2.DescribeRouteTables := λ _ _, inr tables;
     ec2.CreateRouteTable := λ _ _,
       inr (Some {| ec2.RouteTableId := Some "rtb-1"; ec2.Tags := [];
                    ec2.Associations := [] |});
     ec2.DescribeInternetGateways := λ _ _,
       inr [Some {| ec2.InternetGatewayId := Some "igw-1" |}];
     ec2.CreateRoute := λ _ _ _ _, None;
     ec2.AssociateRouteTable := λ _ _ _, None;
     ec2.DisassociateRouteTable := λ _ _, None;
     ec2.DeleteRouteTable := λ _ _, None;
     ec2.CreateTags := λ _ _ _, None |}.

Definition tag (k v : string) : option ec2.Tag :=
  Some {| ec2.Key := Some k; ec2.Value := Some v |}.

(** The remote route table as Apply leaves it for a subnet named [sn] of the
    pool [rname] in cluster "c1": tagged and associated. *)
Definition remote (rname sn : string) : ec2.RouteTable :=
  {| ec2.RouteTableId := Some "rtb-1";
     ec2.Tags := [tag "Name" rname; tag "KubernetesCluster" "c1";
                  tag subnet_pair_key sn];
     ec2.Associations :=
       [Some {| ec2.RouteTableAssociationId := Some "rtbassoc-1" |}] |}.

(** The same table once its association is gone. *)
Definition detached (rname sn : string) : ec2.RouteTable :=
  {| ec2.RouteTableId := Some "rtb-1";
     ec2.Tags := ec2.Tags (remote rname sn);
     ec2.Associations := [] |}.

Definition subnet (name id : string) : cluster.Subnet :=
  {| cluster.Subnet_Name := name; cluster.Subnet_Identifier := id |}.

Definition pool (name : string) (sns : list cluster.Subnet)
    : cluster.ServerPool :=
  {| cluster.ServerPool_Name := name; cluster.ServerPool_Identifier := "";
     cluster.Subnets := sns |}.

Definition known (pools : list cluster.ServerPool) : cluster.Cluster :=
  {| cluster.Name := "c1";
     cluster.Network_ := {| cluster.Network_Identifier := "vpc-1" |};
     cluster.ServerPools := pools |}.

(** A resource as the driver constructs it for a pass: named, bound to its
    subnet and server pool, nothing cached. *)
Definition resource (name : string) (sn : cluster.Subnet)
    (sp : cluster.ServerPool) : RouteTable :=
  {| RouteTable_Shared :=
       {| Name := name; CloudID := ""; Tags := ∅; TagResource := None;
          CachedActual := None; CachedExpected := None |};
     ClusterSubnet := Some sn; ServerPool := Some sp |}.

(** A snapshot with the given name, identifier and tags. *)
Definition snapshot (name id : string) (tags : gmap string string)
    : RouteTable :=
  {| RouteTable_Shared :=
       {| Name := name; CloudID := id; Tags := tags; TagResource := None;
          CachedActual := None; CachedExpected := None |};
     ClusterSubnet := None; ServerPool := None |}.

Definition start (objs : list RouteTable) : state :=
  {| heap := objs; calls := [] |}.

(** The end-to-end scenario: everything is called "pool-a". *)
Definition sn_a : cluster.Subnet := subnet "pool-a" "subnet-1".
Definition sp_a : cluster.ServerPool := pool "pool-a" [sn_a].
Definition r_a : RouteTable := resource "pool-a" sn_a sp_a.

Definition tags_a : gmap string string :=
  expectedTags "pool-a" "c1" "pool-a".

(** A pass in which the route table does not exist yet: the resource, the
    actual snapshot taken before the subnet was identified, and the
    expected snapshot. *)
Definition st_create : state :=
  start [r_a; snapshot "pool-a" "" ∅; snapshot "pool-a" "pool-a" tags_a].

(** A pass in which the actual snapshot is the expected one. *)
Definition st_settled : state :=
  start [r_a; snapshot "pool-a" "pool-a" tags_a;
         snapshot "pool-a" "pool-a" tags_a].

(** A server pool "pool-b" whose subnet has a name of its own. *)
Definition sn_b : cluster.Subnet := subnet "subnet-b" "subnet-2".
Definition sp_b : cluster.ServerPool := pool "pool-b" [sn_b].
Definition r_b : RouteTable := resource "pool-b" sn_b sp_b.

(** The creating pass for that pool, with the resource named [name]. *)
Definition st_create_b (name : string) : state :=
  start [resource name sn_b sp_b; snapshot name "" ∅;
         snapshot "pool-b" "pool-b" (expectedTags name "c1" "subnet-b")].

(** The requests of a creating pass up to the default route. *)
Definition requests_to_route : list ec2.request :=
  [ec2.CreateRouteTableInput "vpc-1";
   ec2.DescribeInternetGatewaysInput
     [{| ec2.Filter_Name := "tag:kubicorn-internet-gateway-name";
         ec2.Values := ["c1"] |}];
   ec2.CreateRouteInput "0.0.0.0/0" (Some "igw-1") (Some "rtb-1")].

(** The lookup of the route table paired with the subnet [sn]. *)
Definition lookup_request (sn : string) : ec2.request :=
  ec2.DescribeRouteTablesInput
    [{| ec2.Filter_Name := "tag:kubicorn-route-table-subnet-pair";
        ec2.Values := [sn] |}].

(** The provider of a cluster whose internet gateway has not been tagged
    yet: the gateway lookup finds nothing. *)
Definition provider_without_gateway : ec2.API :=
  {| ec2.DescribeRouteTables := λ _ _, inr [];
     ec2.CreateRouteTable := λ _ _,
       inr (Some {| ec2.RouteTableId := Some "rtb-1"; ec2.Tags := [];
                    ec2.Associations := [] |});
     ec2.DescribeInternetGateways := λ _ _, inr [];
     ec2.CreateRoute := λ _ _ _ _, None;
     ec2.AssociateRouteTable := λ _ _ _, None;
     ec2.DisassociateRouteTable := λ _ _, None;
     ec2.DeleteRouteTable := λ _ _, None;
     ec2.CreateTags := λ _ _ _, None |}.

(** A provider on which everything succeeds except the deletion of a route
    table. *)
Definition provider_delete_fails : ec2.API :=
  {| ec2.DescribeRouteTables := λ _ _, inr [Some (remote "pool-a" "pool-a")];
     ec2.CreateRouteTable := λ _ _, inl "unavailable";
     ec2.DescribeInternetGateways := λ _ _, inr [];
     ec2.CreateRoute := λ _ _ _ _, None;
     ec2.AssociateRouteTable := λ _ _ _, None;
     ec2.DisassociateRouteTable := λ _ _, None;
     ec2.DeleteRouteTable := λ _ _, Some "DependencyViolation";
     ec2.CreateTags := λ _ _ _, None |}.

(** A provider whose answer to the creation of a route table lacks the
    identifier of the table. *)
Definition provider_without_id : ec2.API :=
  {| ec2.DescribeRouteTables := λ _ _, inr [];
     ec2.CreateRouteTable := λ _ _,
       inr (Some {| ec2.RouteTableId := None; ec2.Tags := [];
                    ec2.Associations := [] |});
     ec2.DescribeInternetGateways := λ _ _,
       inr [Some {| ec2.InternetGatewayId := Some "igw-1" |}];
     ec2.CreateRoute := λ _ _ _ _, None;
     ec2.AssociateRouteTable := λ _ _ _, None;
     ec2.DisassociateRouteTable := λ _ _, None;
     ec2.DeleteRouteTable := λ _ _, None;
     ec2.CreateTags := λ _ _ _, None |}.

(** The resource of pool "pool-a" while its subnet is not realised yet. *)
Definition r_unrealised : RouteTable :=
  resource "pool-a" (subnet "pool-a" "") sp_a.

End Scenario.

(** ** Reasoning about the store *)

Open Scope list_scope.

Lemma heap_lookup_old (h : list RouteTable) x l :
  l < length h → (h ++ [x]) !! l = h !! l.
Proof. intros. by rewrite lookup_app_l. Qed.

Lemma heap_lookup_new (h : list RouteTable) x :
  (h ++ [x]) !! length h = Some x.
Proof. by rewrite lookup_app_r, Nat.sub_diag. Qed.

Lemma heap_lookup_fresh (h : list RouteTable) : h !! length h = None.
Proof. by apply lookup_ge_None. Qed.

Lemma set_CloudID_same (o : RouteTable) : set_CloudID (CloudID o) o = o.
Proof. by destruct o as [[] ? ?]. Qed.

Ltac len := rewrite ?length_insert, ?length_app; simpl; lia.

(** Every location that is read lies inside the store. *)
Ltac bounds :=
  repeat match goal with
  | H : ?h !! ?l = Some _ |- _ =>
      lazymatch goal with
      | _ : l < length h |- _ => fail
      | _ => pose proof (lookup_lt_Some _ _ _ H)
      end
  end.

Ltac heap_simpl :=
  repeat first
    [ rewrite length_insert in *
    | rewrite heap_lookup_new in *
    | rewrite heap_lookup_old in * by len
    | rewrite list_lookup_insert_eq in * by len
    | rewrite list_lookup_insert_ne in * by lia ].

Ltac unfold_M :=
  unfold bind, load, deref, send, modify, alloc, fail, ret, panic, ack in *.

(** Two reads of one location give one object. *)
Ltac same_loads :=
  repeat match goal with
  | H1 : ?x = Some ?a, H2 : ?x = Some ?b |- _ =>
      rewrite H1 in H2; simplify_eq
  end.

(** Symbolic execution of a method body: one case per branch taken. *)
Ltac run :=
  repeat (case_match; simplify_eq/=; bounds; heap_simpl); same_loads.

(** The tag loop of Actual leaves a key at the value the remote object gives
    it, when the object gives it one value only. *)
Lemma copyTags_lookup tags : ∀ (m m' : gmap string string) k v,
  copyTags tags m = Some m' →
  (∀ v', Some {| ec2.Key := Some k; ec2.Value := Some v' |} ∈ tags → v' = v) →
  m !! k = Some v ∨ Some {| ec2.Key := Some k; ec2.Value := Some v |} ∈ tags →
  m' !! k = Some v.
Proof.
  induction tags as [| t tags IH]; intros m m' k v Hcopy Huniq Hin.
  - simpl in Hcopy. injection Hcopy as <-.
    destruct Hin as [? | Hin]; [done | by apply elem_of_nil in Hin].
  - destruct t as [[[key |] [val |]] |]; try discriminate Hcopy.
    simpl in Hcopy. apply (IH _ _ _ _ Hcopy).
    + intros v' Hv'. apply Huniq. by right.
    + destruct (decide (key = k)) as [-> | Hne].
      * left. rewrite lookup_insert_eq. f_equal. apply Huniq. by left.
      * destruct Hin as [Hm | Hin].
        -- left. by rewrite lookup_insert_ne.
        -- right. apply elem_of_cons in Hin as [Heq | ?]; [congruence | done].
Qed.


(** ** The subnet search of Apply *)

(** The inner loop either keeps the identifier it started from or ends on the
    identifier of a subnet called [name]. *)
Lemma scanSubnets_inv name subnets : ∀ subnetID,
  scanSubnets name subnetID subnets = subnetID
  ∨ ∃ sn, sn ∈ subnets
        ∧ cluster.Subnet_Name sn = name
        ∧ cluster.Subnet_Identifier sn = scanSubnets name subnetID subnets.
Proof.
  induction subnets as [| sn subnets IH]; intros subnetID; [by left |].
  unfold scanSubnets in *. simpl.
  destruct (IH (if decide (cluster.Subnet_Name sn = name)
                then cluster.Subnet_Identifier sn else subnetID))
    as [Heq | (sn' & Hin & Hname & Hid)].
  - rewrite Heq.
    destruct (decide (cluster.Subnet_Name sn = name)); [right | by left].
    exists sn. split; [apply list_elem_of_here | done].
  - right. exists sn'. split; [by apply list_elem_of_further | done].
Qed.

(** So does the outer loop, from whatever identifier it starts. *)
Lemma scanServerPools_from name pools : ∀ subnetID,
  let res :=
    foldl (λ id sp, if decide (cluster.ServerPool_Name sp = name)
                    then scanSubnets name id (cluster.Subnets sp) else id)
          subnetID pools in
  res = subnetID
  ∨ ∃ sp sn, sp ∈ pools ∧ sn ∈ cluster.Subnets sp
           ∧ cluster.ServerPool_Name sp = name
           ∧ cluster.Subnet_Name sn = name
           ∧ cluster.Subnet_Identifier sn = res.
Proof.
  induction pools as [| sp pools IH]; intros subnetID; [by left |].
  simpl.
  destruct (IH (if decide (cluster.ServerPool_Name sp = name)
                then scanSubnets name subnetID (cluster.Subnets sp)
                else subnetID))
    as [Heq | (sp' & sn' & Hsp & Hsn & Hp & Hn & Hid)].
  - simpl in Heq. rewrite Heq.
    destruct (decide (cluster.ServerPool_Name sp = name)) as [Hp |];
      [| by left].
    destruct (scanSubnets_inv name (cluster.Subnets sp) subnetID)
      as [-> | (sn & Hin & Hn & Hid)]; [by left | right].
    exists sp, sn. split; [apply list_elem_of_here | done].
  - right. exists sp', sn'. split; [by apply list_elem_of_further | done].
Qed.

(** The search answers with a populated identifier only when some server pool
    and one of its subnets are both called [name]: the name of the resource
    has to be the name of the pool and of the subnet at once. *)
Lemma scanServerPools_inv name pools :
  scanServerPools name pools ≠ "" →
  ∃ sp sn, sp ∈ pools ∧ sn ∈ cluster.Subnets sp
         ∧ cluster.ServerPool_Name sp = name
         ∧ cluster.Subnet_Name sn = name
         ∧ cluster.Subnet_Identifier sn = scanServerPools name pools.
Proof.
  intros Hne.
  destruct (scanServerPools_from name pools "") as [Heq | H]; [| exact H].
  by destruct Hne.
Qed.

(** ** The methods, path by path *)

Section Paths.

Variable S : string → list string → string.
Variable IsEqual : RouteTable → RouteTable → string + bool.
Variable Sdk : ec2.API.

Lemma Expected_cached r known st (this : RouteTable) cached :
  heap st !! r = Some this →
  CachedExpected this = Some cached →
  Expected r known st = Ok cached st.
Proof. intros Hr Hc. unfold Expected. unfold_M. by rewrite Hr, Hc. Qed.

Lemma Expected_fresh r known st (this : RouteTable) subnet pool :
  heap st !! r = Some this →
  CachedExpected this = None →
  ClusterSubnet this = Some subnet →
  ServerPool this = Some pool →
  let e := length (heap st) in
  ∃ st', Expected r known st = Ok e st'
    ∧ calls st' = calls st
    ∧ heap st' !! e = Some (expectedSnapshot this known subnet pool)
    ∧ heap st' !! r = Some (set_CachedExpected (Some e) this)
    ∧ ∀ l, l ≠ r → l < e → heap st' !! l = heap st !! l.
Proof.
  intros Hr Hc Hs Hp e. eexists. split.
  { unfold Expected. unfold_M. rewrite Hr, Hc. simpl. rewrite Hs, Hp.
    simpl. bounds. heap_simpl. rewrite Hr. reflexivity. }
  subst e. simpl. bounds. heap_simpl.
  repeat split; try reflexivity. intros l Hl Hlt. by heap_simpl.
Qed.

Lemma Actual_fresh_inv r known st (this : RouteTable) subnet a st1 :
  heap st !! r = Some this →
  CachedActual this = None →
  ClusterSubnet this = Some subnet →
  cluster.Subnet_Identifier subnet ≠ "" →
  Actual S Sdk r known st = Ok a st1 →
  ∃ rt tags,
    ec2.DescribeRouteTables Sdk (calls st) (pairFilter S subnet)
      = inr [Some rt]
    ∧ copyTags (ec2.Tags rt) ∅ = Some tags
    ∧ a = length (heap st)
    ∧ length (heap st1) = Datatypes.S (length (heap st))
    ∧ heap st1 !! a
      = Some (actualSnapshot this (cluster.Subnet_Name subnet) tags)
    ∧ heap st1 !! r = Some (set_CachedActual (Some a) this).
Proof.
  intros Hr Hc Hs Hid HA.
  unfold Actual in HA. unfold_M. rewrite Hr, Hc in HA. simpl in HA.
  rewrite Hs in HA. rewrite decide_True in HA by done. simpl in HA.
  run.
  match goal with
  | H : ec2.DescribeRouteTables _ _ _ = inr ?out |- _ =>
      destruct out as [| ? [| ? ?]]; simplify_eq/=; try lia
  end.
  match goal with
  | H : copyTags (ec2.Tags ?rt) ∅ = Some ?tags |- _ => exists rt, tags
  end.
  repeat split; [done | len].
Qed.

Lemma Delete_empty_CloudID r actual known st (d : RouteTable) :
  heap st !! actual = Some d →
  CloudID d = "" →
  Delete S Sdk r actual known st = Err (UnableToDeleteWithoutID (Name d)) st.
Proof.
  intros Hd Hid. unfold Delete. unfold_M. rewrite Hd.
  by rewrite decide_True.
Qed.

Lemma Delete_ok_inv r actual known st (d : RouteTable) res st' :
  heap st !! actual = Some d →
  Delete S Sdk r actual known st = Ok res st' →
  CloudID d ≠ ""
  ∧ ∃ n : RouteTable,
      heap st' !! res = Some n
      ∧ Name n = Name d ∧ Tags n = Tags d ∧ CloudID n = "".
Proof.
  intros Hd H. unfold Delete in H. unfold_M.
  rewrite Hd in H. simpl in H. run.
  split; [done |]. eexists. split; [reflexivity | done].
Qed.

(** Delete indexes the associations of the matched route table without
    looking at their number. *)
Lemma Delete_no_association r actual known st (d this : RouteTable)
    subnet rt :
  heap st !! actual = Some d →
  CloudID d ≠ "" →
  heap st !! r = Some this →
  ClusterSubnet this = Some subnet →
  ec2.DescribeRouteTables Sdk (calls st) (pairFilter S subnet)
    = inr [Some rt] →
  ec2.Associations rt = [] →
  Delete S Sdk r actual known st
  = Panic (calls st ++ [ec2.DescribeRouteTablesInput (pairFilter S subnet)]).
Proof.
  intros Hd Hid Hr Hs Hout Has. unfold Delete. unfold_M.
  rewrite Hd. simpl. rewrite decide_False by done.
  rewrite Hr. simpl. rewrite Hs. simpl. rewrite Hout. simpl.
  by rewrite Has.
Qed.

Lemma Apply_equal r actual expected c st (a e : RouteTable) :
  heap st !! actual = Some a →
  heap st !! expected = Some e →
  IsEqual a e = inr true →
  Apply S IsEqual Sdk r actual expected c st = Ok expected st.
Proof.
  intros Ha He Heq. unfold Apply. unfold_M. by rewrite He, Ha, Heq.
Qed.

(** On the non-equal path the first thing Apply does is to ask for a new
    route table, however the call ends. *)
Lemma Apply_unequal_creates r actual expected c st (a e : RouteTable) :
  heap st !! actual = Some a →
  heap st !! expected = Some e →
  IsEqual a e = inr false →
  ∃ rest,
    sent (Apply S IsEqual Sdk r actual expected c st)
    = calls st
        ++ ec2.CreateRouteTableInput
             (cluster.Network_Identifier (cluster.Network_ c))
        :: rest.
Proof.
  intros Ha He Heq. unfold Apply, findSubnetID, Tag. unfold_M.
  rewrite He, Ha, Heq. simpl.
  repeat (case_match; simplify_eq/=);
    rewrite <- ?app_assoc; simpl; eexists; reflexivity.
Qed.

(** What a successful Apply leaves on the non-equal path: the expected
    snapshot with the CloudID of the new route table, and a new object
    holding that CloudID and the expected Name, and nothing else. *)
Lemma Apply_unequal_ok_inv r actual expected c st (a e : RouteTable)
    res st' :
  heap st !! actual = Some a →
  heap st !! expected = Some e →
  IsEqual a e = inr false →
  Apply S IsEqual Sdk r actual expected c st = Ok res st' →
  ∃ id,
    res = length (heap st)
    ∧ heap st' !! expected = Some (set_CloudID id e)
    ∧ heap st' !! res
      = Some (set_Name (Name e) (set_CloudID id RouteTable_zero)).
Proof.
  intros Ha He Heq HA. unfold Apply, findSubnetID, Tag in HA. unfold_M.
  rewrite He, Ha, Heq in HA.
  run; eexists; (split; [reflexivity |]); heap_simpl; done.
Qed.

(** Apply succeeds on its non-equal path only in a cluster that has a server
    pool and, in it, an identified subnet which are both named like the
    resource; the subnet the resource is bound to plays no part. *)
Lemma Apply_unequal_ok_names r actual expected c st (a e this : RouteTable)
    res st' :
  heap st !! actual = Some a →
  heap st !! expected = Some e →
  heap st !! r = Some this →
  IsEqual a e = inr false →
  Apply S IsEqual Sdk r actual expected c st = Ok res st' →
  ∃ sp sn, sp ∈ cluster.ServerPools c ∧ sn ∈ cluster.Subnets sp
         ∧ cluster.ServerPool_Name sp = Name this
         ∧ cluster.Subnet_Name sn = Name this
         ∧ cluster.Subnet_Identifier sn ≠ "".
Proof.
  intros Ha He Hr Heq HA. unfold Apply, findSubnetID, Tag in HA. unfold_M.
  rewrite He, Ha, Heq in HA. run.
  match goal with
  | Hne : scanServerPools _ _ ≠ "" |- _ =>
      destruct (scanServerPools_inv _ _ Hne)
        as (sp & sn & Hsp & Hsn & Hpn & Hsnn & Hid)
  end.
  exists sp, sn. repeat split; try done. by rewrite Hid.
Qed.

End Paths.

(** ** What Apply writes, and when *)

Ltac len' := repeat (rewrite length_insert || rewrite length_app); simpl; lia.

Ltac heap_simpl' :=
  heap_simpl;
  repeat (rewrite list_lookup_insert_eq in * by len'; heap_simpl).

Lemma app_self_inv {A} (l k : list A) : l = l ++ k → k = [].
Proof.
  intros H. apply (f_equal length) in H. rewrite length_app in H.
  destruct k; [done | simpl in H; lia].
Qed.

(** Locating a request in the log of a call: [H] equates the log with
    [(old ++ qs) ++ q :: rest]; every position of [q] is tried. *)
Ltac no_such_request H :=
  rewrite <- ?app_assoc in H; simpl in H;
  first
    [ apply app_inv_head in H
    | apply app_self_inv in H ];
  repeat match goal with
         | E : _ = ?qs ++ _ :: _ |- _ => is_var qs; destruct qs; simplify_eq/=
         | E : ?qs ++ _ :: _ = _ |- _ => is_var qs; destruct qs; simplify_eq/=
         end.

Section Writes.

Variable S : string → list string → string.
Variable IsEqual : RouteTable → RouteTable → string + bool.
Variable Sdk : ec2.API.

(** When Apply returns, the expected snapshot is in one of two states.
    Either it is as it was, and no associate request of this call was
    acknowledged; or the five requests of a creation were sent, the
    association was acknowledged, and the CloudID of the expected snapshot is
    the identifier of the route table the provider created. *)
Lemma Apply_expected_CloudID r actual expected c st st' (e : RouteTable) :
  final (Apply S IsEqual Sdk r actual expected c st) = Some st' →
  heap st !! expected = Some e →
  (heap st' !! expected = Some e
   ∧ ∀ qs sid rtid rest,
       calls st'
       = (calls st ++ qs) ++ ec2.AssociateRouteTableInput sid rtid :: rest →
       ec2.AssociateRouteTable Sdk (calls st ++ qs) sid rtid ≠ None)
  ∨ (∃ rt id gw sid ts,
       ec2.CreateRouteTable Sdk (calls st)
         (cluster.Network_Identifier (cluster.Network_ c)) = inr (Some rt)
       ∧ ec2.RouteTableId rt = Some id
       ∧ calls st'
         = calls st ++ creationRequests S c (Some id) gw sid id ts
       ∧ ec2.AssociateRouteTable Sdk
           (calls st ++ take 3 (creationRequests S c (Some id) gw sid id ts))
           sid (Some id) = None
       ∧ heap st' !! expected = Some (set_CloudID id e)).
Proof.
  intros H He. unfold Apply, findSubnetID, Tag in H. unfold_M.
  rewrite He in H. simpl in H.
  run; rewrite <- ?app_assoc in *; simpl in *.
  all: try (left; split; [bounds; heap_simpl'; done |];
            intros qs sid rtid rest Hc; no_such_request Hc; congruence).
  all: right; do 5 eexists; unfold creationRequests; simpl;
    repeat split; try eassumption; try reflexivity;
    bounds; heap_simpl'; done.
Qed.

(** The result of Apply is the expected snapshot itself when the comparator
    answers equal, and an object that was not in the store when it answers
    unequal. *)
Lemma Apply_result r actual expected c st res st' :
  Apply S IsEqual Sdk r actual expected c st = Ok res st' →
  ∃ a e : RouteTable,
    heap st !! actual = Some a ∧ heap st !! expected = Some e
    ∧ ((IsEqual a e = inr true ∧ res = expected ∧ st' = st)
       ∨ (IsEqual a e = inr false
          ∧ heap st !! res = None ∧ is_Some (heap st' !! res))).
Proof.
  intros H. unfold Apply, findSubnetID, Tag in H. unfold_M.
  run; eexists _, _; (split; [eassumption |]);
    (split; [first [eassumption | reflexivity] |]);
    first [ by left
          | right; split; [done |];
            split; [apply heap_lookup_fresh | bounds; heap_simpl'; eauto] ].
Qed.

End Writes.

(** ** Properties of the reconciliation contract *)

Section Properties.

Variable S : string → list string → string.
Variable IsEqual : RouteTable → RouteTable → string + bool.
Variable Sdk : ec2.API.

(** *** Apply: the fast path *)

(** C1. When the comparator reports the actual and the expected snapshot
    equal, Apply returns the expected snapshot itself, leaves the store as
    it was and sends no request to the provider; a second Apply after it
    does the same. *)
Theorem Apply_equal_is_noop r actual expected c st (a e : RouteTable) :
  heap st !! actual = Some a →
  heap st !! expected = Some e →
  IsEqual a e = inr true →
  Apply S IsEqual Sdk r actual expected c st = Ok expected st
  ∧ sent (Apply S IsEqual Sdk r actual expected c st) = calls st
  ∧ (Apply S IsEqual Sdk r actual expected c ;;
     Apply S IsEqual Sdk r actual expected c) st = Ok expected st.
Proof.
  intros Ha He Heq.
  pose proof (Apply_equal S IsEqual Sdk r actual expected c st a e
                Ha He Heq) as E.
  split; [exact E |]. split.
  - by rewrite E.
  - unfold bind at 1. by rewrite E.
Qed.

(** *** Expected *)

(** C2 (as the code has it). On a resource whose Expected cache is unset,
    Expected sends nothing to the provider and returns a snapshot whose
    Tags are exactly [Name] = the resource's own Name, [KubernetesCluster]
    = the cluster's name and the identity pair = the subnet's name, and
    whose Name and CloudID are the server pool's name. With the cache set,
    the cached snapshot is returned. *)
Theorem Expected_snapshot r known st (this : RouteTable) subnet pool :
  heap st !! r = Some this →
  ClusterSubnet this = Some subnet →
  ServerPool this = Some pool →
  (∀ cached, CachedExpected this = Some cached →
     Expected r known st = Ok cached st)
  ∧ (CachedExpected this = None →
     ∃ e st' (eo : RouteTable),
       Expected r known st = Ok e st'
       ∧ calls st' = calls st
       ∧ heap st' !! e = Some eo
       ∧ Tags eo = {[ "Name" := Name this;
                      "KubernetesCluster" := cluster.Name known;
                      "kubicorn-route-table-subnet-pair"
                        := cluster.Subnet_Name subnet ]}
       ∧ Name eo = cluster.ServerPool_Name pool
       ∧ CloudID eo = cluster.ServerPool_Name pool).
Proof.
  intros Hr Hs Hp. split.
  - intros cached Hc. by apply Expected_cached with this.
  - intros Hc.
    destruct (Expected_fresh r known st this subnet pool Hr Hc Hs Hp)
      as (st' & HE & Hcalls & He & _).
    exists (length (heap st)), st', (expectedSnapshot this known subnet pool).
    done.
Qed.

(** *** Apply: what it writes *)

(** C4 (as the code has it). Whatever way Apply ends short of a panic,
    every object of the store is as it was, except that the expected
    snapshot may have a new CloudID: its Name and Tags, and the actual
    snapshot when it is another object, are untouched. The expected snapshot
    itself is left as it was unless the association was acknowledged; once
    it was, on the non-equal path, its CloudID is the identifier of the
    route table that Apply has just created. The result is the expected
    snapshot itself, with the state unchanged, on the equal path, and an
    object that was not in the store before on the non-equal path. *)
Theorem Apply_frame r actual expected c st st' :
  final (Apply S IsEqual Sdk r actual expected c st) = Some st' →
  only_CloudID_at expected st st'
  ∧ (∀ e : RouteTable, heap st !! expected = Some e →
       (heap st' !! expected = Some e
        ∧ ∀ qs sid rtid rest,
            calls st'
            = (calls st ++ qs)
                ++ ec2.AssociateRouteTableInput sid rtid :: rest →
            ec2.AssociateRouteTable Sdk (calls st ++ qs) sid rtid ≠ None)
       ∨ (∃ rt id gw sid ts,
            ec2.CreateRouteTable Sdk (calls st)
              (cluster.Network_Identifier (cluster.Network_ c))
              = inr (Some rt)
            ∧ ec2.RouteTableId rt = Some id
            ∧ calls st'
              = calls st ++ creationRequests S c (Some id) gw sid id ts
            ∧ ec2.AssociateRouteTable Sdk
                (calls st
                   ++ take 3 (creationRequests S c (Some id) gw sid id ts))
                sid (Some id) = None
            ∧ heap st' !! expected = Some (set_CloudID id e)))
  ∧ (∀ res, Apply S IsEqual Sdk r actual expected c st = Ok res st' →
       ∃ a e : RouteTable,
         heap st !! actual = Some a ∧ heap st !! expected = Some e
         ∧ ((IsEqual a e = inr true ∧ res = expected ∧ st' = st)
            ∨ (IsEqual a e = inr false
               ∧ heap st !! res = None ∧ is_Some (heap st' !! res)))).
Proof.
  intros H. split; [| split].
  - unfold Apply, findSubnetID, Tag, only_CloudID_at in *. unfold_M.
    intros l o Hl.
    run; bounds; heap_simpl; try (left; done);
      destruct (decide (l = expected)) as [-> | Hne];
      heap_simpl; same_loads; eauto.
  - intros e He. by eapply Apply_expected_CloudID.
  - intros res Hres. by eapply Apply_result.
Qed.

(** *** The identity pair *)

(** C5 (as the code has it). Of the snapshots the methods return for a
    resource bound to a subnet, the one Expected computes carries the
    identity pair with the subnet's name; the one Actual computes carries
    it when the matched remote object does; the one Delete returns has the
    Tags of the snapshot it was given; and the one Apply returns on its
    non-equal path has no tags at all. *)
Theorem identity_pair_in_snapshots r known st (this : RouteTable) subnet :
  heap st !! r = Some this →
  ClusterSubnet this = Some subnet →
  (∀ pool, CachedExpected this = None → ServerPool this = Some pool →
     ∃ e st' (eo : RouteTable),
       Expected r known st = Ok e st' ∧ heap st' !! e = Some eo
       ∧ Tags eo !! subnet_pair_key = Some (cluster.Subnet_Name subnet))
  ∧ (∀ rt a st',
       CachedActual this = None →
       cluster.Subnet_Identifier subnet ≠ "" →
       ec2.DescribeRouteTables Sdk (calls st) (pairFilter S subnet)
         = inr [Some rt] →
       tagged rt subnet_pair_key (cluster.Subnet_Name subnet) →
       Actual S Sdk r known st = Ok a st' →
       ∃ ao : RouteTable,
         heap st' !! a = Some ao
         ∧ Tags ao !! subnet_pair_key = Some (cluster.Subnet_Name subnet))
  ∧ (∀ actual (d : RouteTable) res st',
       heap st !! actual = Some d →
       Delete S Sdk r actual known st = Ok res st' →
       ∃ n : RouteTable, heap st' !! res = Some n ∧ Tags n = Tags d)
  ∧ (∀ actual expected (a e : RouteTable) c res st',
       heap st !! actual = Some a →
       heap st !! expected = Some e →
       IsEqual a e = inr false →
       Apply S IsEqual Sdk r actual expected c st = Ok res st' →
       ∃ n : RouteTable, heap st' !! res = Some n ∧ Tags n = ∅).
Proof.
  intros Hr Hs. repeat split.
  - intros pool Hc Hp.
    destruct (Expected_fresh r known st this subnet pool Hr Hc Hs Hp)
      as (st' & HE & _ & He & _).
    eexists _, st', _. repeat split; [exact HE | exact He |].
    unfold subnet_pair_key. simpl. unfold expectedTags. by simplify_map_eq.
  - intros rt a st' Hc Hid Hout [Hin Huniq] HA.
    destruct (Actual_fresh_inv S Sdk r known st this subnet a st'
                Hr Hc Hs Hid HA)
      as (rt' & tags & Hout' & Hcopy & _ & _ & Ha & _).
    rewrite Hout in Hout'. simplify_eq.
    eexists. split; [exact Ha |]. simpl.
    eapply copyTags_lookup; eauto.
  - intros actual d res st' Hd HD.
    destruct (Delete_ok_inv S Sdk r actual known st d res st' Hd HD)
      as (_ & n & Hn & _ & HT & _). eauto.
  - intros actual expected a e c res st' Ha He Heq HA.
    destruct (Apply_unequal_ok_inv S IsEqual Sdk r actual expected c st a e
                res st' Ha He Heq HA) as (id & _ & _ & Hres).
    eexists. split; [exact Hres | done].
Qed.

(** *** Actual *)

(** C6. With the subnet identified and nothing cached, a lookup that
    matches any number of route tables other than one makes Actual fail
    with the cardinality error. The resource is as it was, so its cache is
    still unset, and the next Actual sends the lookup again. *)
Theorem Actual_cardinality_fault r known st (this : RouteTable) subnet output :
  heap st !! r = Some this →
  CachedActual this = None →
  ClusterSubnet this = Some subnet →
  cluster.Subnet_Identifier subnet ≠ "" →
  ec2.DescribeRouteTables Sdk (calls st) (pairFilter S subnet) = inr output →
  length output ≠ 1 →
  let e := FoundRouteTables (length output) (cluster.Subnet_Identifier subnet) in
  let q := ec2.DescribeRouteTablesInput (pairFilter S subnet) in
  ∃ st', Actual S Sdk r known st = Err e st'
    ∧ fault_of e = Cardinality
    ∧ calls st' = calls st ++ [q]
    ∧ heap st' !! r = Some this
    ∧ (∀ l (o : RouteTable), heap st !! l = Some o → heap st' !! l = Some o)
    ∧ sent (Actual S Sdk r known st') = calls st' ++ [q].
Proof.
  intros Hr Hc Hs Hid Hout Hlen e q.
  eexists. split.
  { unfold Actual. unfold_M. rewrite Hr, Hc. simpl. rewrite Hs.
    rewrite decide_True by done. simpl. rewrite Hout.
    rewrite decide_True by done. reflexivity. }
  bounds. simpl. heap_simpl.
  repeat split; [done | intros; bounds; by heap_simpl |].
  unfold Actual. unfold_M. simpl. heap_simpl. rewrite Hr, Hc. simpl.
  rewrite Hs. rewrite decide_True by done. simpl.
  repeat (case_match; simplify_eq/=); done.
Qed.

(** *** Delete *)

(** C7. Delete of a snapshot whose CloudID is empty fails with the
    missing-identifier error; the state, and with it the log of provider
    requests, is untouched. *)
Theorem Delete_without_CloudID r actual known st (d : RouteTable) :
  heap st !! actual = Some d →
  CloudID d = "" →
  Delete S Sdk r actual known st = Err (UnableToDeleteWithoutID (Name d)) st
  ∧ fault_of (UnableToDeleteWithoutID (Name d)) = MissingIdentifier
  ∧ sent (Delete S Sdk r actual known st) = calls st.
Proof.
  intros Hd Hid.
  rewrite (Delete_empty_CloudID S Sdk r actual known st d Hd Hid). done.
Qed.

(** C8. A successful Delete of a snapshot with a CloudID returns a snapshot
    with the same Name and the same Tags and an empty CloudID. *)
Theorem Delete_result r actual known st (d : RouteTable) res st' :
  heap st !! actual = Some d →
  CloudID d ≠ "" →
  Delete S Sdk r actual known st = Ok res st' →
  ∃ n : RouteTable,
    heap st' !! res = Some n
    ∧ Name n = Name d ∧ Tags n = Tags d ∧ CloudID n = "".
Proof.
  intros Hd _ H.
  by destruct (Delete_ok_inv S Sdk r actual known st d res st' Hd H).
Qed.

(** *** Actual against Expected *)

(** C10. For a resource of a fresh pass whose subnet is identified and is
    not named like its server pool, the snapshot of a successful Actual and
    the snapshot of the Expected after it differ in Name and in CloudID, so
    the comparator of the design reports them unequal, and Apply on them
    starts by asking the provider for a new route table. *)
Theorem Actual_Expected_compare_unequal r known st (this : RouteTable)
    subnet pool a st1 :
  heap st !! r = Some this →
  CachedActual this = None →
  CachedExpected this = None →
  ClusterSubnet this = Some subnet →
  ServerPool this = Some pool →
  cluster.Subnet_Identifier subnet ≠ "" →
  cluster.Subnet_Name subnet ≠ cluster.ServerPool_Name pool →
  Actual S Sdk r known st = Ok a st1 →
  ∃ e st2 (ao eo : RouteTable),
    Expected r known st1 = Ok e st2
    ∧ heap st2 !! a = Some ao ∧ heap st2 !! e = Some eo
    ∧ Name ao ≠ Name eo ∧ CloudID ao ≠ CloudID eo
    ∧ compare_IsEqual ao eo = inr false
    ∧ ∀ c, ∃ rest,
        sent (Apply S compare_IsEqual Sdk r a e c st2)
        = calls st2
            ++ ec2.CreateRouteTableInput
                 (cluster.Network_Identifier (cluster.Network_ c))
            :: rest.
Proof.
  intros Hr Hca Hce Hs Hp Hid Hne HA.
  destruct (Actual_fresh_inv S Sdk r known st this subnet a st1
              Hr Hca Hs Hid HA)
    as (rt & tags & _ & _ & -> & Hlen & Ha & Hr1).
  pose proof (lookup_lt_Some _ _ _ Hr) as Hlt.
  destruct (Expected_fresh r known st1 _ subnet pool Hr1 Hce Hs Hp)
    as (st2 & HE & _ & He & _ & Hold).
  assert (heap st2 !! length (heap st)
          = Some (actualSnapshot this (cluster.Subnet_Name subnet) tags))
    as Ha2.
  { rewrite Hold; [exact Ha | lia | lia]. }
  assert (compare_IsEqual
            (actualSnapshot this (cluster.Subnet_Name subnet) tags)
            (expectedSnapshot (set_CachedActual (Some (length (heap st))) this)
                              known subnet pool) = inr false) as Hcmp.
  { unfold compare_IsEqual. f_equal. apply bool_decide_eq_false.
    intros [? _]. done. }
  eexists _, st2, _, _.
  split; [exact HE |]. split; [exact Ha2 |]. split; [exact He |].
  split; [exact Hne |]. split; [exact Hne |]. split; [exact Hcmp |].
  intros c. by eapply Apply_unequal_creates.
Qed.

End Properties.

(** ** The contract on the concrete cluster *)

Section Scenarios.

Import Scenario.

(** *** A settled pass *)

(** Apply on equal snapshots in the settled pass. *)
Lemma Apply_equal_is_noop_witness :
  (heap st_settled !! 1 = Some (snapshot "pool-a" "pool-a" tags_a)
   ∧ heap st_settled !! 2 = Some (snapshot "pool-a" "pool-a" tags_a)
   ∧ compare_IsEqual (snapshot "pool-a" "pool-a" tags_a)
                     (snapshot "pool-a" "pool-a" tags_a) = inr true)
  ∧ Apply S compare_IsEqual (provider []) 0 1 2 (known [sp_a]) st_settled
    = Ok 2 st_settled.
Proof.
  split.
  - repeat split; reflexivity.
  - apply (Apply_equal_is_noop S compare_IsEqual (provider []) 0 1 2
             (known [sp_a]) st_settled
             (snapshot "pool-a" "pool-a" tags_a)
             (snapshot "pool-a" "pool-a" tags_a)).
    + reflexivity.
    + reflexivity.
    + vm_compute. reflexivity.
Defined.

(** *** Expected *)

(** For a resource that is not named like its server pool, the [Name] tag
    of the Expected snapshot is the resource's name, not the pool's. *)
Lemma Expected_Name_tag_counterexample :
  ∃ e st' (eo : RouteTable),
    Expected 0 (known [sp_b]) (start [resource "subnet-b" sn_b sp_b])
      = Ok e st'
    ∧ heap st' !! e = Some eo
    ∧ Tags eo !! "Name" = Some "subnet-b"
    ∧ Tags eo ≠ {[ "Name" := cluster.ServerPool_Name sp_b;
                   "KubernetesCluster" := cluster.Name (known [sp_b]);
                   "kubicorn-route-table-subnet-pair"
                     := cluster.Subnet_Name sn_b ]}.
Proof.
  eexists _, _, _. split; [vm_compute; reflexivity |].
  split; [reflexivity |]. split; [vm_compute; reflexivity |].
  intros H. apply (f_equal (λ m : gmap string string, m !! "Name")) in H.
  vm_compute in H. discriminate H.
Qed.

(** Expected for the resource of pool "pool-b". *)
Lemma Expected_snapshot_witness :
  ∃ e st' (eo : RouteTable),
    Expected 0 (known [sp_b]) (start [r_b]) = Ok e st'
    ∧ calls st' = []
    ∧ heap st' !! e = Some eo
    ∧ Tags eo = {[ "Name" := "pool-b"; "KubernetesCluster" := "c1";
                   "kubicorn-route-table-subnet-pair" := "subnet-b" ]}
    ∧ Name eo = "pool-b"
    ∧ CloudID eo = "pool-b".
Proof.
  apply (Expected_snapshot 0 (known [sp_b]) (start [r_b]) r_b sn_b sp_b);
    reflexivity.
Defined.

(** *** The subnet search *)

(** C3. In the cluster whose pool "pool-b" has the identified subnet
    "subnet-b", a scan for the name of the supplied subnet reference finds
    the identifier "subnet-2". Apply does not: whether the resource is
    named after the pool or after the subnet, it fails with the
    missing-prerequisite error after the default route, without an
    associate request. *)
Theorem Apply_subnet_search_misses_reference :
  ClusterSubnet (resource "pool-b" sn_b sp_b) = Some sn_b
  ∧ subnetIDsNamed (cluster.Subnet_Name sn_b) (known [sp_b]) = ["subnet-2"]
  ∧ Apply S compare_IsEqual (provider []) 0 1 2 (known [sp_b])
          (st_create_b "pool-b")
    = Err UnableToFindSubnetId
          {| heap := heap (st_create_b "pool-b");
             calls := requests_to_route |}
  ∧ Apply S compare_IsEqual (provider []) 0 1 2 (known [sp_b])
          (st_create_b "subnet-b")
    = Err UnableToFindSubnetId
          {| heap := heap (st_create_b "subnet-b");
             calls := requests_to_route |}
  ∧ fault_of UnableToFindSubnetId = MissingPrerequisite.
Proof.
  split; [reflexivity |]. split; [reflexivity |].
  split; [vm_compute; reflexivity |]. split; [vm_compute; reflexivity |].
  reflexivity.
Qed.

(** *** The creating pass *)

(** In the creating pass Apply returns with the expected snapshot changed:
    its CloudID was "pool-a" and is now that of the new route table. *)
Lemma Apply_overwrites_expected_counterexample :
  ∃ res st' (e' : RouteTable),
    Apply S compare_IsEqual (provider []) 0 1 2 (known [sp_a]) st_create
      = Ok res st'
    ∧ heap st_create !! 2 = Some (snapshot "pool-a" "pool-a" tags_a)
    ∧ heap st' !! 2 = Some e'
    ∧ CloudID e' = "rtb-1"
    ∧ heap st' !! 2 ≠ heap st_create !! 2.
Proof.
  eexists _, _, _. split; [vm_compute; reflexivity |].
  split; [reflexivity |]. split; [reflexivity |].
  split; [reflexivity |].
  intros H.
  apply (f_equal (λ o : option RouteTable,
                    match o with Some x => CloudID x | None => "" end)) in H.
  vm_compute in H. discriminate H.
Qed.

(** What the creating pass leaves in the store: the expected snapshot with
    the identifier of the new route table. *)
Lemma Apply_frame_witness :
  ∃ st',
    final (Apply S compare_IsEqual (provider []) 0 1 2 (known [sp_a])
             st_create) = Some st'
    ∧ only_CloudID_at 2 st_create st'
    ∧ heap st' !! 2
      = Some (set_CloudID "rtb-1" (snapshot "pool-a" "pool-a" tags_a)).
Proof.
  assert (∃ st', final (Apply S compare_IsEqual (provider []) 0 1 2
                          (known [sp_a]) st_create) = Some st')
    as (st' & E) by (eexists; vm_compute; reflexivity).
  destruct (Apply_frame S compare_IsEqual (provider []) 0 1 2 (known [sp_a])
              st_create st' E) as (Hframe & Hexpected & _).
  exists st'. split; [exact E |]. split; [exact Hframe |].
  destruct (Hexpected (snapshot "pool-a" "pool-a" tags_a) eq_refl)
    as [[Hsame _] | (rt & id & gw & sid & ts & Hrt & Hid & _ & _ & He)].
  - vm_compute in E. injection E as <-.
    vm_compute in Hsame. discriminate Hsame.
  - injection Hrt as <-. injection Hid as <-. exact He.
Defined.

(** *** The identity pair *)

(** The snapshot Apply returns from the creating pass carries no identity
    pair: it has no tags. *)
Lemma Apply_result_untagged_counterexample :
  ∃ res st' (n : RouteTable),
    Apply S compare_IsEqual (provider []) 0 1 2 (known [sp_a]) st_create
      = Ok res st'
    ∧ heap st' !! res = Some n
    ∧ CloudID n = "rtb-1"
    ∧ Tags n = ∅
    ∧ Tags n !! subnet_pair_key ≠ Some (cluster.Subnet_Name sn_a).
Proof.
  eexists _, _, _. split; [vm_compute; reflexivity |].
  split; [reflexivity |]. split; [reflexivity |]. split; [reflexivity |].
  vm_compute. discriminate.
Qed.

(** The tags of the four snapshots: Expected, Actual and Delete in the
    settled pass, Apply in the creating pass. *)
Lemma identity_pair_in_snapshots_witness :
  (∃ e st' (eo : RouteTable),
     Expected 0 (known [sp_a]) st_settled = Ok e st'
     ∧ heap st' !! e = Some eo
     ∧ Tags eo !! subnet_pair_key = Some "pool-a")
  ∧ (∃ a st' (ao : RouteTable),
       Actual S (provider [Some (remote "pool-a" "pool-a")]) 0
              (known [sp_a]) st_settled = Ok a st'
       ∧ heap st' !! a = Some ao
       ∧ Tags ao !! subnet_pair_key = Some "pool-a")
  ∧ (∃ res st' (n : RouteTable),
       Delete S (provider [Some (remote "pool-a" "pool-a")]) 0 1
              (known [sp_a]) st_settled = Ok res st'
       ∧ heap st' !! res = Some n
       ∧ Tags n = tags_a)
  ∧ (∃ res st' (n : RouteTable),
       Apply S compare_IsEqual (provider []) 0 1 2 (known [sp_a]) st_create
         = Ok res st'
       ∧ heap st' !! res = Some n
       ∧ Tags n = ∅).
Proof.
  destruct (identity_pair_in_snapshots S compare_IsEqual
              (provider [Some (remote "pool-a" "pool-a")]) 0 (known [sp_a])
              st_settled r_a sn_a eq_refl eq_refl)
    as (HE & HA & HD & _).
  destruct (identity_pair_in_snapshots S compare_IsEqual
              (provider []) 0 (known [sp_a])
              st_create r_a sn_a eq_refl eq_refl)
    as (_ & _ & _ & HP).
  split; [| split; [| split]].
  - apply (HE sp_a); reflexivity.
  - assert (∃ a st', Actual S (provider [Some (remote "pool-a" "pool-a")]) 0
                       (known [sp_a]) st_settled = Ok a st')
      as (a & st' & E) by (eexists _, _; vm_compute; reflexivity).
    destruct (HA (remote "pool-a" "pool-a") a st') as (ao & Hao & Ht).
    + reflexivity.
    + vm_compute. discriminate.
    + reflexivity.
    + split.
      * do 2 apply list_elem_of_further. apply list_elem_of_here.
      * intros v' Hin. vm_compute in Hin.
        repeat (apply elem_of_cons in Hin as [Hin | Hin];
                [by simplify_eq |]).
        by apply elem_of_nil in Hin.
    + exact E.
    + exists a, st', ao. eauto.
  - assert (∃ res st', Delete S (provider [Some (remote "pool-a" "pool-a")])
                         0 1 (known [sp_a]) st_settled = Ok res st')
      as (res & st' & E) by (eexists _, _; vm_compute; reflexivity).
    destruct (HD 1 (snapshot "pool-a" "pool-a" tags_a) res st' eq_refl E)
      as (n & Hn & Ht).
    exists res, st', n. eauto.
  - assert (∃ res st', Apply S compare_IsEqual (provider [])
                         0 1 2 (known [sp_a]) st_create = Ok res st')
      as (res & st' & E) by (eexists _, _; vm_compute; reflexivity).
    destruct (HP 1 2 (snapshot "pool-a" "" ∅)
                (snapshot "pool-a" "pool-a" tags_a) (known [sp_a]) res st')
      as (n & Hn & Ht).
    + reflexivity.
    + reflexivity.
    + vm_compute. reflexivity.
    + exact E.
    + exists res, st', n. eauto.
Defined.

(** *** A lookup without a match *)

(** Actual for an identified subnet whose route table does not exist. *)
Lemma Actual_cardinality_fault_witness :
  ∃ st',
    Actual S (provider []) 0 (known [sp_a]) (start [r_a])
      = Err (FoundRouteTables 0 "subnet-1") st'
    ∧ calls st' = [lookup_request "pool-a"]
    ∧ heap st' !! 0 = Some r_a
    ∧ sent (Actual S (provider []) 0 (known [sp_a]) st')
      = [lookup_request "pool-a"; lookup_request "pool-a"].
Proof.
  destruct (Actual_cardinality_fault S (provider []) 0 (known [sp_a])
              (start [r_a]) r_a sn_a [])
    as (st' & HA & _ & Hcalls & Hr & _ & Hsent).
  - reflexivity.
  - reflexivity.
  - reflexivity.
  - vm_compute. discriminate.
  - reflexivity.
  - vm_compute. discriminate.
  - exists st'. split; [exact HA |]. split; [exact Hcalls |].
    split; [exact Hr |]. rewrite Hsent, Hcalls. reflexivity.
Defined.

(** *** Delete *)

(** Delete of the snapshot of a route table that was never created. *)
Lemma Delete_without_CloudID_witness :
  (heap st_create !! 1 = Some (snapshot "pool-a" "" ∅)
   ∧ CloudID (snapshot "pool-a" "" ∅) = "")
  ∧ Delete S (provider [Some (remote "pool-a" "pool-a")]) 0 1
           (known [sp_a]) st_create
    = Err (UnableToDeleteWithoutID "pool-a") st_create.
Proof.
  split; [split; reflexivity |].
  apply (Delete_without_CloudID S
           (provider [Some (remote "pool-a" "pool-a")]) 0 1 (known [sp_a])
           st_create (snapshot "pool-a" "" ∅));
    reflexivity.
Defined.

(** Delete of the settled route table. *)
Lemma Delete_result_witness :
  ∃ res st' (n : RouteTable),
    Delete S (provider [Some (remote "pool-a" "pool-a")]) 0 1
           (known [sp_a]) st_settled = Ok res st'
    ∧ heap st' !! res = Some n
    ∧ Name n = "pool-a" ∧ Tags n = tags_a ∧ CloudID n = "".
Proof.
  assert (∃ res st', Delete S (provider [Some (remote "pool-a" "pool-a")])
                       0 1 (known [sp_a]) st_settled = Ok res st')
    as (res & st' & E) by (eexists _, _; vm_compute; reflexivity).
  destruct (Delete_result S (provider [Some (remote "pool-a" "pool-a")])
              0 1 (known [sp_a]) st_settled
              (snapshot "pool-a" "pool-a" tags_a) res st')
    as (n & Hn & HN & HT & HC).
  - reflexivity.
  - vm_compute. discriminate.
  - exact E.
  - exists res, st', n. eauto.
Defined.

(** C9. A route table that is found by its identity tag but has no
    association left (a Delete that detached it and then failed to delete
    it leaves it so) makes the next Delete index an empty slice: the call
    panics after the lookup instead of returning a value or an error. *)
Theorem Delete_panics_without_association :
  ec2.Associations (detached "pool-a" "pool-a") = []
  ∧ Delete S (provider [Some (detached "pool-a" "pool-a")]) 0 1
           (known [sp_a]) st_settled
    = Panic [lookup_request "pool-a"].
Proof. split; [reflexivity | vm_compute; reflexivity]. Qed.

(** *** A subnet named unlike its pool *)

(** Actual and Expected for the pool "pool-b" and its subnet "subnet-b". *)
Lemma Actual_Expected_compare_unequal_witness :
  ∃ a st1 e st2 (ao eo : RouteTable),
    Actual S (provider [Some (remote "pool-b" "subnet-b")]) 0
           (known [sp_b]) (start [r_b]) = Ok a st1
    ∧ Expected 0 (known [sp_b]) st1 = Ok e st2
    ∧ heap st2 !! a = Some ao ∧ heap st2 !! e = Some eo
    ∧ Name ao ≠ Name eo ∧ CloudID ao ≠ CloudID eo
    ∧ compare_IsEqual ao eo = inr false.
Proof.
  assert (∃ a st1, Actual S (provider [Some (remote "pool-b" "subnet-b")]) 0
                     (known [sp_b]) (start [r_b]) = Ok a st1)
    as (a & st1 & E) by (eexists _, _; vm_compute; reflexivity).
  destruct (Actual_Expected_compare_unequal S
              (provider [Some (remote "pool-b" "subnet-b")]) 0
              (known [sp_b]) (start [r_b]) r_b sn_b sp_b a st1)
    as (e & st2 & ao & eo & HE & Ha & He & HN & HC & Hcmp & _).
  - reflexivity.
  - reflexivity.
  - reflexivity.
  - reflexivity.
  - reflexivity.
  - vm_compute. discriminate.
  - vm_compute. discriminate.
  - exact E.
  - exists a, st1, e, st2, ao, eo. eauto 10.
Defined.

End Scenarios.

(** ** Further tactics and lemmas *)

Ltac prefix_goal :=
  split; [lia |];
  split; [simpl; rewrite <- ?app_assoc; simpl; reflexivity |];
  intros ? ? ?; simplify_eq/=; bounds; heap_simpl'; repeat split; done.

Ltac pick_prefix :=
  first
    [ solve [exists 1, None, None, "", "", []; prefix_goal]
    | solve [exists 2, None, None, "", "", []; prefix_goal]
    | solve [exists 3; eexists _, _; exists "", "", []; prefix_goal]
    | solve [exists 4; eexists _, _, _; exists "", []; prefix_goal]
    | solve [exists 5; eexists _, _, _, _, _; prefix_goal] ].

Ltac last_answer :=
  rewrite <- ?app_assoc in *; simpl in *;
  first
    [ solve [exists []; eexists; rewrite app_nil_r; split;
             [reflexivity | simpl; first [congruence | case_match; congruence]]]
    | solve [eexists [_]; eexists; split;
             [rewrite <- ?app_assoc; simpl; reflexivity
             | simpl; first [congruence | case_match; congruence]]]
    | solve [eexists [_; _]; eexists; split;
             [rewrite <- ?app_assoc; simpl; reflexivity
             | simpl; first [congruence | case_match; congruence]]]
    | solve [eexists [_; _; _]; eexists; split;
             [rewrite <- ?app_assoc; simpl; reflexivity
             | simpl; first [congruence | case_match; congruence]]]
    | solve [eexists [_; _; _; _]; eexists; split;
             [rewrite <- ?app_assoc; simpl; reflexivity
             | simpl; first [congruence | case_match; congruence]]] ].

(** The request of the log that the provider refused is the last one, and
    its error is what the method returns; [Hs] locates the request. *)
Ltac refused_is_last Hs :=
  rewrite <- ?app_assoc in *; simpl in *;
  no_such_request Hs;
  rewrite ?app_nil_r in *; simpl in *;
  repeat case_match; simplify_eq/=;
  try congruence;
  (split; [reflexivity |]; eexists; f_equal; f_equal; congruence).

(** ** The tag loop *)

Lemma copyTags_last tags : ∀ (m m' : gmap string string) k v,
  copyTags tags m = Some m' →
  m' !! k = Some v
  ↔ (∃ pre post, tags = pre ++ tagEntry k v :: post
                 ∧ ∀ v', tagEntry k v' ∉ post)
    ∨ (m !! k = Some v ∧ ∀ v', tagEntry k v' ∉ tags).
Proof.
  induction tags as [| t tags IH]; intros m m' k v Hcopy.
  - simpl in Hcopy. injection Hcopy as <-. split.
    + intros Hm. right. split; [done |]. intros v'. apply not_elem_of_nil.
    + intros [(pre & post & Heq & _) | [Hm _]]; [| done].
      by destruct pre.
  - destruct t as [[[key |] [val |]] |]; try discriminate Hcopy.
    simpl in Hcopy. rewrite (IH _ _ k v Hcopy). split.
    + intros [(pre & post & -> & Hpost) | [Hm Hno]].
      * left. by exists (tagEntry key val :: pre), post.
      * destruct (decide (key = k)) as [-> | Hne].
        -- rewrite lookup_insert_eq in Hm. injection Hm as ->.
           left. by exists [], tags.
        -- rewrite lookup_insert_ne in Hm by done. right. split; [done |].
           intros v' [Heq | Hin]%elem_of_cons; [| by eapply Hno].
           unfold tagEntry in Heq. congruence.
    + intros [(pre & post & Heq & Hpost) | [Hm Hno]].
      * destruct pre as [| t pre]; simpl in Heq.
        -- injection Heq as Hk Hv <-. subst. right.
           by rewrite lookup_insert_eq.
        -- injection Heq as _ ->. left. by exists pre, post.
      * right. split.
        -- rewrite lookup_insert_ne; [done |]. intros ->.
           apply (Hno val). apply list_elem_of_here.
        -- intros v' Hin. apply (Hno v'). by apply list_elem_of_further.
Qed.

Lemma copyTags_entries (l : list (string * string)) : ∀ m,
  copyTags ((λ kv, tagEntry kv.1 kv.2) <$> l) m
  = Some (foldl (λ acc kv, <[kv.1 := kv.2]> acc) m l).
Proof. induction l as [| [k v] l IH]; intros m; [done |]. simpl. apply IH. Qed.

Lemma foldl_insert_map_to_list (m : gmap string string) :
  foldl (λ acc kv, <[kv.1 := kv.2]> acc) ∅ (map_to_list m) = m.
Proof.
  rewrite <- (list_to_map_to_list m) at 2.
  rewrite <- (list_to_map_proper (reverse (map_to_list m)) (map_to_list m)).
  - unfold list_to_map. rewrite <- (reverse_involutive (map_to_list m)) at 1.
    generalize (reverse (map_to_list m)) as l. intros l.
    induction l as [| [k v] l IH]; [done |].
    rewrite reverse_cons, foldl_app. simpl. by rewrite IH.
  - rewrite fmap_reverse, reverse_Permutation. apply NoDup_fst_map_to_list.
  - apply reverse_Permutation.
Qed.

(** ** The subnet search, forwards *)

(** Subnets with other names leave the identifier found so far alone. *)
Lemma scanSubnets_other name subnets : ∀ subnetID,
  (∀ sn, sn ∈ subnets → cluster.Subnet_Name sn ≠ name) →
  scanSubnets name subnetID subnets = subnetID.
Proof.
  induction subnets as [| sn subnets IH]; intros subnetID Hno; [done |].
  unfold scanSubnets in *. simpl.
  rewrite decide_False by (apply Hno, list_elem_of_here).
  apply IH. intros sn' Hin. apply Hno. by apply list_elem_of_further.
Qed.

Lemma scanSubnets_last name pre sn post subnetID :
  cluster.Subnet_Name sn = name →
  (∀ sn', sn' ∈ post → cluster.Subnet_Name sn' ≠ name) →
  scanSubnets name subnetID (pre ++ sn :: post) = cluster.Subnet_Identifier sn.
Proof.
  intros Hn Hpost. unfold scanSubnets. rewrite foldl_app. simpl.
  rewrite decide_True by done. by apply scanSubnets_other.
Qed.

Lemma scanPools_other name pools : ∀ subnetID,
  (∀ sp sn, sp ∈ pools → cluster.ServerPool_Name sp = name →
            sn ∈ cluster.Subnets sp → cluster.Subnet_Name sn ≠ name) →
  foldl (λ id sp, if decide (cluster.ServerPool_Name sp = name)
                  then scanSubnets name id (cluster.Subnets sp) else id)
        subnetID pools
  = subnetID.
Proof.
  induction pools as [| sp pools IH]; intros subnetID Hno; [done |].
  simpl. rewrite IH.
  - case_decide; [| done]. apply scanSubnets_other.
    intros sn Hin. eapply Hno; [apply list_elem_of_here | done | done].
  - intros sp' sn Hsp. apply Hno. by apply list_elem_of_further.
Qed.

(** ** More paths of the methods *)

Section MorePaths.

Variable S : string → list string → string.
Variable IsEqual : RouteTable → RouteTable → string + bool.
Variable Sdk : ec2.API.

Lemma Actual_cached r known st (this : RouteTable) cached :
  heap st !! r = Some this →
  CachedActual this = Some cached →
  Actual S Sdk r known st = Ok cached st.
Proof. intros Hr Hc. unfold Actual. unfold_M. by rewrite Hr, Hc. Qed.

(** A successful Actual leaves its result in the cache of the receiver. *)
Lemma Actual_ok_caches r known st a st1 :
  Actual S Sdk r known st = Ok a st1 →
  ∃ this1 : RouteTable, heap st1 !! r = Some this1 ∧ CachedActual this1 = Some a.
Proof.
  intros HA. unfold Actual in HA. unfold_M. run; eauto.
Qed.

Lemma Expected_ok_caches r known st e st1 :
  Expected r known st = Ok e st1 →
  ∃ this1 : RouteTable,
    heap st1 !! r = Some this1 ∧ CachedExpected this1 = Some e.
Proof.
  intros HE. unfold Expected in HE. unfold_M. run; eauto.
Qed.

Lemma Delete_frame r actual known st st' :
  final (Delete S Sdk r actual known st) = Some st' →
  ∀ l (o : RouteTable), heap st !! l = Some o → heap st' !! l = Some o.
Proof.
  intros H l o Hl. unfold Delete in H. unfold_M.
  run; bounds; heap_simpl; done.
Qed.

Lemma Actual_fresh_calls r known st (this : RouteTable) subnet a st1 :
  heap st !! r = Some this →
  CachedActual this = None →
  ClusterSubnet this = Some subnet →
  cluster.Subnet_Identifier subnet ≠ "" →
  Actual S Sdk r known st = Ok a st1 →
  calls st1
  = calls st ++ [ec2.DescribeRouteTablesInput (pairFilter S subnet)].
Proof.
  intros Hr Hc Hs Hid HA.
  unfold Actual in HA. unfold_M. rewrite Hr, Hc in HA. simpl in HA.
  rewrite Hs in HA. rewrite decide_True in HA by done. simpl in HA.
  by run.
Qed.

(** The tag list Tag builds, read as the provider would report it. *)
Lemma tag_list_reads_back (tags : gmap string string) :
  (∀ x, S "%s" [x] = x) →
  copyTags (Some <$> ((λ kv : string * string,
                         {| ec2.Key := Some (S "%s" [kv.1]);
                            ec2.Value := Some (S "%s" [kv.2]) |})
                      <$> map_to_list tags)) ∅
  = Some tags.
Proof.
  intros HS. rewrite <- list_fmap_compose.
  rewrite (list_fmap_ext _ (λ kv, tagEntry kv.1 kv.2) (map_to_list tags)).
  - by rewrite copyTags_entries, foldl_insert_map_to_list.
  - intros _ [k v] _. unfold tagEntry. simpl. by rewrite !HS.
Qed.

Lemma Actual_fresh_ok r known st (this : RouteTable) subnet rt tags :
  heap st !! r = Some this →
  CachedActual this = None →
  ClusterSubnet this = Some subnet →
  cluster.Subnet_Identifier subnet ≠ "" →
  ec2.DescribeRouteTables Sdk (calls st) (pairFilter S subnet)
    = inr [Some rt] →
  copyTags (ec2.Tags rt) ∅ = Some tags →
  let a := length (heap st) in
  ∃ st1, Actual S Sdk r known st = Ok a st1
    ∧ heap st1 !! a
      = Some (actualSnapshot this (cluster.Subnet_Name subnet) tags)
    ∧ heap st1 !! r = Some (set_CachedActual (Some a) this).
Proof.
  intros Hr Hc Hs Hid Hout Hcopy a. eexists. split.
  { unfold Actual. unfold_M. rewrite Hr, Hc. simpl. rewrite Hs. simpl.
    rewrite decide_True by done. simpl. rewrite Hout. simpl.
    rewrite Hcopy. simpl. bounds.
    repeat (progress (heap_simpl'; simpl)). rewrite Hr. simpl.
    reflexivity. }
  subst a. simpl. bounds. repeat (progress (heap_simpl'; simpl)).
  split; reflexivity.
Qed.

End MorePaths.

(** ** Further properties of the methods *)

Section Further.

Variable S : string → list string → string.
Variable IsEqual : RouteTable → RouteTable → string + bool.
Variable Sdk : ec2.API.

(** X1. While the subnet of the resource has no identifier, a first Actual
    sends nothing to the provider: it returns a new snapshot with the name of
    the resource, an empty CloudID and no tags, and caches it. *)
Theorem Actual_unidentified_subnet r known st (this : RouteTable) subnet :
  heap st !! r = Some this →
  CachedActual this = None →
  ClusterSubnet this = Some subnet →
  cluster.Subnet_Identifier subnet = "" →
  ∃ a st' (ao : RouteTable),
    Actual S Sdk r known st = Ok a st'
    ∧ calls st' = calls st
    ∧ heap st !! a = None
    ∧ heap st' !! a = Some ao
    ∧ Name ao = Name this ∧ CloudID ao = "" ∧ Tags ao = ∅
    ∧ heap st' !! r = Some (set_CachedActual (Some a) this).
Proof.
  intros Hr Hc Hs Hid. eexists _, _, _. split.
  { unfold Actual. unfold_M. rewrite Hr, Hc. simpl. rewrite Hs. simpl.
    rewrite decide_False by (by intros []). simpl.
    bounds. heap_simpl. rewrite Hr. reflexivity. }
  simpl. bounds. heap_simpl.
  repeat split; try reflexivity. apply heap_lookup_fresh.
Qed.

(** X2. Once Actual has returned a snapshot, every later Actual on the same
    resource returns that same snapshot without asking the provider and
    without changing the store, whatever the cluster and the provider have
    become. *)
Theorem Actual_second_call_is_cached r known st a st1 :
  Actual S Sdk r known st = Ok a st1 →
  ∀ known' Sdk', Actual S Sdk' r known' st1 = Ok a st1.
Proof.
  intros HA known' Sdk'.
  destruct (Actual_ok_caches S Sdk r known st a st1 HA) as (this1 & Hr & Hc).
  by apply Actual_cached with this1.
Qed.

(** X3. Once Expected has returned a snapshot, every later Expected on the
    same resource returns that same snapshot, for whatever cluster. *)
Theorem Expected_second_call_is_cached r known st e st1 :
  Expected r known st = Ok e st1 →
  ∀ known', Expected r known' st1 = Ok e st1.
Proof.
  intros HE known'.
  destruct (Expected_ok_caches r known st e st1 HE) as (this1 & Hr & Hc).
  by apply Expected_cached with this1.
Qed.

(** X4. Actual and Expected write to one field of one existing object: the
    cache field of the receiver. Every other object of the store, and every
    other field of the receiver, is as it was when they return. *)
Theorem Actual_Expected_frame r known st st' :
  (final (Actual S Sdk r known st) = Some st' →
   ∀ l (o : RouteTable), heap st !! l = Some o →
     heap st' !! l = Some o
     ∨ (l = r ∧ ∃ a, heap st' !! l = Some (set_CachedActual (Some a) o)))
  ∧ (final (Expected r known st) = Some st' →
     ∀ l (o : RouteTable), heap st !! l = Some o →
       heap st' !! l = Some o
       ∨ (l = r ∧ ∃ e, heap st' !! l = Some (set_CachedExpected (Some e) o))).
Proof.
  split; intros H l o Hl.
  - unfold Actual in H. unfold_M.
    run; bounds; heap_simpl; try (left; done);
      destruct (decide (l = r)) as [-> | Hne];
      heap_simpl; same_loads; eauto.
  - unfold Expected in H. unfold_M.
    run; bounds; heap_simpl; try (left; done);
      destruct (decide (l = r)) as [-> | Hne];
      heap_simpl; same_loads; eauto.
Qed.

(** X5. The snapshot a first Actual computes for an identified subnet is
    named after the subnet and has the subnet's name, not the identifier of
    the route table found, as its CloudID. Its Tags are those of the one
    route table the lookup matched: a key has the value of its last entry in
    the provider's tag list. *)
Theorem Actual_snapshot_of_remote r known st (this : RouteTable) subnet a st' :
  heap st !! r = Some this →
  CachedActual this = None →
  ClusterSubnet this = Some subnet →
  cluster.Subnet_Identifier subnet ≠ "" →
  Actual S Sdk r known st = Ok a st' →
  ∃ rt (ao : RouteTable),
    ec2.DescribeRouteTables Sdk (calls st) (pairFilter S subnet)
      = inr [Some rt]
    ∧ calls st'
      = calls st ++ [ec2.DescribeRouteTablesInput (pairFilter S subnet)]
    ∧ heap st' !! a = Some ao
    ∧ Name ao = cluster.Subnet_Name subnet
    ∧ CloudID ao = cluster.Subnet_Name subnet
    ∧ ∀ k v, Tags ao !! k = Some v
             ↔ ∃ pre post, ec2.Tags rt = pre ++ tagEntry k v :: post
                           ∧ ∀ v', tagEntry k v' ∉ post.
Proof.
  intros Hr Hc Hs Hid HA.
  pose proof (Actual_fresh_calls S Sdk r known st this subnet a st'
                Hr Hc Hs Hid HA) as Hcalls.
  destruct (Actual_fresh_inv S Sdk r known st this subnet a st'
              Hr Hc Hs Hid HA)
    as (rt & tags & Hout & Hcopy & _ & _ & Ha & _).
  exists rt, (actualSnapshot this (cluster.Subnet_Name subnet) tags).
  repeat split; try done.
  - intros Hk. apply (copyTags_last _ _ _ k v Hcopy) in Hk.
    destruct Hk as [Hk | [Hk _]]; [done | by rewrite lookup_empty in Hk].
  - intros Hk. apply (copyTags_last _ _ _ k v Hcopy). by left.
Qed.

(** X6. Tag sends one create-tags request, addressed to the CloudID of the
    receiver, with one tag for each entry of the mapping, and leaves the
    store alone. When the helper [S] formats a string to itself, the tag
    list of the request, read back by the tag loop of Actual, is the mapping
    that was given. *)
Theorem Tag_request_reads_back r tags st (this : RouteTable) :
  heap st !! r = Some this →
  (∀ x, S "%s" [x] = x) →
  ∃ ts,
    sent (Tag S Sdk r tags st)
    = calls st ++ [ec2.CreateTagsInput [CloudID this] ts]
    ∧ length ts = size tags
    ∧ copyTags (Some <$> ts) ∅ = Some tags
    ∧ (∀ st', final (Tag S Sdk r tags st) = Some st' → heap st' = heap st).
Proof.
  intros Hr HS. eexists. split; [| split; [| split]].
  - unfold Tag. unfold_M. rewrite Hr. simpl. by case_match.
  - by rewrite length_fmap, length_map_to_list.
  - by apply tag_list_reads_back.
  - intros st' H. unfold Tag in H. unfold_M. rewrite Hr in H.
    simpl in H. repeat (case_match; simplify_eq/=); done.
Qed.

(** X7. On its non-equal path the requests Apply has sent, however it
    ends, are the first one or more of the requests of a creation, in their
    order: create the route table, look up the internet gateway, create the
    default route, associate the subnet, tag the table. It sends no other
    request, so it undoes nothing. When it succeeds all five were sent, for
    one route table: its identifier is the CloudID of the returned snapshot
    and the new CloudID of the expected snapshot, and the tags sent are, in
    some order, one for each entry of the Tags of the expected snapshot. *)
Theorem Apply_requests_in_order r actual expected c st (a e : RouteTable) :
  heap st !! actual = Some a →
  heap st !! expected = Some e →
  IsEqual a e = inr false →
  ∃ (n : nat) rtid gw subnetID id ts,
    (1 ≤ n)%nat
    ∧ sent (Apply S IsEqual Sdk r actual expected c st)
      = calls st ++ take n (creationRequests S c rtid gw subnetID id ts)
    ∧ ∀ res st',
        Apply S IsEqual Sdk r actual expected c st = Ok res st' →
        n = 5 ∧ rtid = Some id ∧ subnetID ≠ ""
        ∧ ts ≡ₚ (λ kv : string * string,
                   {| ec2.Key := Some (S "%s" [kv.1]);
                      ec2.Value := Some (S "%s" [kv.2]) |})
                <$> map_to_list (Tags e)
        ∧ heap st' !! expected = Some (set_CloudID id e)
        ∧ heap st' !! res
          = Some (set_Name (Name e) (set_CloudID id RouteTable_zero)).
Proof.
  intros Ha He Heq. unfold Apply, findSubnetID, Tag, creationRequests.
  unfold_M. rewrite He, Ha, Heq. simpl.
  run; heap_simpl'; simplify_eq; pick_prefix.
Qed.

(** X8. Actual, Apply and Delete stop at the first request the provider
    refuses and return its error as it is. An error of the provider that the
    method returns is the provider's answer to the last request it sent;
    and a request of the method that the provider refuses is the last one
    sent, its error being what the method returns. *)
Theorem provider_error_is_last_answer r actual expected known st o :
  o = Actual S Sdk r known st
  ∨ o = Apply S IsEqual Sdk r actual expected known st
  ∨ o = Delete S Sdk r actual known st →
  (∀ e st', o = Err (TransportFault e) st' →
     ∃ qs q, calls st' = (calls st ++ qs) ++ [q]
           ∧ respond Sdk (calls st ++ qs) q = Some e)
  ∧ (∀ qs q rest e,
       sent o = (calls st ++ qs) ++ q :: rest →
       respond Sdk (calls st ++ qs) q = Some e →
       rest = [] ∧ ∃ st', o = Err (TransportFault e) st').
Proof.
  intros [-> | [-> | ->]]; split.
  - intros e st' H. unfold Actual in H. unfold_M. run; last_answer.
  - intros qs q rest e. unfold Actual. unfold_M.
    run; intros Hs Hr; refused_is_last Hs.
  - intros e st' H. unfold Apply, findSubnetID, Tag in H. unfold_M.
    run; last_answer.
  - intros qs q rest e. unfold Apply, findSubnetID, Tag. unfold_M.
    run; intros Hs Hr; refused_is_last Hs.
  - intros e st' H. unfold Delete in H. unfold_M. run; last_answer.
  - intros qs q rest e. unfold Delete. unfold_M.
    run; intros Hs Hr; refused_is_last Hs.
Qed.

(** X9. When the lookup of the internet gateway matches any number of
    gateways other than one, Apply fails with the cardinality error, which
    carries the identifier of the server pool. The route table it has just
    created stays: the two requests sent are the creation and the lookup,
    and the store is untouched. *)
Theorem Apply_gateway_cardinality r actual expected c st
    (a e this : RouteTable) pool rt id igs :
  heap st !! actual = Some a →
  heap st !! expected = Some e →
  IsEqual a e = inr false →
  heap st !! r = Some this →
  ServerPool this = Some pool →
  ec2.CreateRouteTable Sdk (calls st)
    (cluster.Network_Identifier (cluster.Network_ c)) = inr (Some rt) →
  ec2.RouteTableId rt = Some id →
  ec2.DescribeInternetGateways Sdk
    (calls st ++ [ec2.CreateRouteTableInput
                    (cluster.Network_Identifier (cluster.Network_ c))])
    (gatewayFilter S c) = inr igs →
  length igs ≠ 1 →
  Apply S IsEqual Sdk r actual expected c st
  = Err (FoundInternetGateways (length igs)
                               (cluster.ServerPool_Identifier pool))
        {| heap := heap st;
           calls := calls st
                    ++ [ec2.CreateRouteTableInput
                          (cluster.Network_Identifier (cluster.Network_ c));
                        ec2.DescribeInternetGatewaysInput
                          (gatewayFilter S c)] |}.
Proof.
  intros Ha He Heq Hr Hp Hrt Hid Higs Hlen.
  unfold Apply. unfold_M. rewrite He, Ha, Heq. simpl.
  rewrite Hrt. simpl. rewrite Hid. simpl. rewrite Higs. simpl.
  rewrite decide_True by done. simpl. rewrite Hr. simpl. rewrite Hp. simpl.
  by rewrite <- app_assoc.
Qed.

(** X10. A successful Delete has sent three requests: the lookup by the
    identity tag of the subnet of the receiver, the removal of the first
    association of the one route table found, and the deletion of that
    table. Further associations of the table are not looked at. *)
Theorem Delete_requests r actual known st (this : RouteTable) subnet res st' :
  heap st !! r = Some this →
  ClusterSubnet this = Some subnet →
  Delete S Sdk r actual known st = Ok res st' →
  ∃ rt assoc rest,
    ec2.DescribeRouteTables Sdk (calls st) (pairFilter S subnet)
      = inr [Some rt]
    ∧ ec2.Associations rt = Some assoc :: rest
    ∧ calls st'
      = calls st
        ++ deletionRequests S subnet (ec2.RouteTableAssociationId assoc)
                            (ec2.RouteTableId rt).
Proof.
  intros Hr Hs H. unfold Delete in H. unfold_M. run.
  match goal with
  | Ho : ec2.DescribeRouteTables _ _ _ = inr ?out |- _ =>
      destruct out as [| ? [| ? ?]]; simplify_eq/=; try lia
  end.
  match goal with
  | Ha : ec2.Associations ?rt !! 0 = Some (Some ?assoc) |- _ =>
      exists rt, assoc; destruct (ec2.Associations rt) as [| ? rest] eqn:E;
      simplify_eq/=; exists rest
  end.
  repeat split; try done. unfold deletionRequests.
  by rewrite <- !app_assoc.
Qed.

(** X11. Beyond being non-empty, the CloudID of the snapshot given to
    Delete decides nothing: on two snapshots with a CloudID, Delete sends
    the same requests. The table it deletes is the one the subnet of the
    receiver is paired with. *)
Theorem Delete_ignores_snapshot r actual1 actual2 known st
    (d1 d2 : RouteTable) :
  heap st !! actual1 = Some d1 → CloudID d1 ≠ "" →
  heap st !! actual2 = Some d2 → CloudID d2 ≠ "" →
  sent (Delete S Sdk r actual1 known st)
  = sent (Delete S Sdk r actual2 known st).
Proof.
  intros H1 Hid1 H2 Hid2. unfold Delete. unfold_M.
  rewrite H1, H2. simpl. rewrite !decide_False by done.
  run; done.
Qed.

(** X12. Delete writes to no object of the store, so it does not reset the
    cache of the receiver: an Actual after the Delete of the snapshot that an
    earlier Actual returned still returns that snapshot, unchanged, without
    asking the provider. *)
Theorem Delete_leaves_cache r known st a st1 st2 :
  Actual S Sdk r known st = Ok a st1 →
  final (Delete S Sdk r a known st1) = Some st2 →
  (∀ l (o : RouteTable), heap st1 !! l = Some o → heap st2 !! l = Some o)
  ∧ ∀ known' Sdk', Actual S Sdk' r known' st2 = Ok a st2.
Proof.
  intros HA HD.
  pose proof (Delete_frame S Sdk r a known st1 st2 HD) as Hframe.
  split; [exact Hframe |]. intros known' Sdk'.
  destruct (Actual_ok_caches S Sdk r known st a st1 HA) as (this1 & Hr & Hc).
  apply Actual_cached with this1; [by apply Hframe | done].
Qed.

(** X13. For a resource of a fresh pass whose identified subnet is named
    like its server pool, and whose remote route table carries the three
    tags of Expected, the snapshot of Actual and the snapshot of the Expected
    after it are two objects with the same contents; with a comparator that
    finds an object equal to itself, Apply on them changes nothing. *)
Theorem Actual_Expected_settle r known st (this : RouteTable) subnet pool rt :
  (∀ x, IsEqual x x = inr true) →
  heap st !! r = Some this →
  CachedActual this = None →
  CachedExpected this = None →
  ClusterSubnet this = Some subnet →
  ServerPool this = Some pool →
  cluster.Subnet_Identifier subnet ≠ "" →
  cluster.Subnet_Name subnet = cluster.ServerPool_Name pool →
  ec2.DescribeRouteTables Sdk (calls st) (pairFilter S subnet)
    = inr [Some rt] →
  copyTags (ec2.Tags rt) ∅
    = Some {[ "Name" := Name this;
              "KubernetesCluster" := cluster.Name known;
              "kubicorn-route-table-subnet-pair"
                := cluster.Subnet_Name subnet ]} →
  ∃ a st1 e st2 (ao eo : RouteTable),
    Actual S Sdk r known st = Ok a st1
    ∧ Expected r known st1 = Ok e st2
    ∧ heap st2 !! a = Some ao ∧ heap st2 !! e = Some eo
    ∧ a ≠ e ∧ ao = eo
    ∧ ∀ c, Apply S IsEqual Sdk r a e c st2 = Ok e st2.
Proof.
  intros Hrefl Hr Hca Hce Hs Hp Hid Hname Hout Hcopy.
  destruct (Actual_fresh_ok S Sdk r known st this subnet rt _
              Hr Hca Hs Hid Hout Hcopy) as (st1 & HA & Ha & Hr1).
  pose proof (lookup_lt_Some _ _ _ Hr) as Hlt.
  pose proof (lookup_lt_Some _ _ _ Ha) as Hlt1.
  destruct (Expected_fresh r known st1 _ subnet pool Hr1 Hce Hs Hp)
    as (st2 & HE & _ & He & _ & Hold).
  assert (length (heap st) ≠ length (heap st1)) as Hne by lia.
  assert (heap st2 !! length (heap st) = heap st1 !! length (heap st)) as Ha2.
  { apply Hold; lia. }
  rewrite Ha in Ha2.
  eexists _, st1, _, st2, _, _.
  split; [exact HA |]. split; [exact HE |]. split; [exact Ha2 |].
  split; [exact He |]. split; [exact Hne |]. split.
  - unfold actualSnapshot, expectedSnapshot, expectedTags. simpl.
    by rewrite Hname.
  - intros c. eapply Apply_equal; [exact Ha2 | exact He |].
    assert (actualSnapshot this (cluster.Subnet_Name subnet)
              {[ "Name" := Name this;
                 "KubernetesCluster" := cluster.Name known;
                 "kubicorn-route-table-subnet-pair"
                   := cluster.Subnet_Name subnet ]}
            = expectedSnapshot
                (set_CachedActual (Some (length (heap st))) this)
                known subnet pool) as ->.
    { unfold actualSnapshot, expectedSnapshot, expectedTags. simpl.
      by rewrite Hname. }
    apply Hrefl.
Qed.

(** X14. Apply succeeds on its non-equal path only if the cluster has a
    server pool named like the resource with an identified subnet named like
    the resource, and it is the identifier of such a subnet that the
    associate request carries. *)
Theorem Apply_associates_namesake_subnet r actual expected c st
    (a e this : RouteTable) res st' :
  heap st !! actual = Some a →
  heap st !! expected = Some e →
  heap st !! r = Some this →
  IsEqual a e = inr false →
  Apply S IsEqual Sdk r actual expected c st = Ok res st' →
  ∃ sp sn rtid,
    sp ∈ cluster.ServerPools c ∧ sn ∈ cluster.Subnets sp
    ∧ cluster.ServerPool_Name sp = Name this
    ∧ cluster.Subnet_Name sn = Name this
    ∧ cluster.Subnet_Identifier sn ≠ ""
    ∧ ec2.AssociateRouteTableInput (cluster.Subnet_Identifier sn) rtid
      ∈ calls st'.
Proof.
  intros Ha He Hr Heq HA. unfold Apply, findSubnetID, Tag in HA. unfold_M.
  rewrite He, Ha, Heq in HA. run.
  match goal with
  | Hne : scanServerPools _ _ ≠ "" |- _ =>
      destruct (scanServerPools_inv _ _ Hne)
        as (sp & sn & Hsp & Hsn & Hpn & Hsnn & Hid)
  end.
  exists sp, sn. eexists. repeat split; try done.
  - by rewrite Hid.
  - rewrite Hid. apply elem_of_app. left. apply elem_of_app. right.
    apply list_elem_of_here.
Qed.

(** X16. When the provider's answer to the creation of the route table
    holds no route table, or a route table without identifier, Apply panics
    right after that one request: the table may exist remotely, and Apply
    returns neither a value nor an error. *)
Theorem Apply_panics_without_table_id r actual expected c st
    (a e : RouteTable) o :
  heap st !! actual = Some a →
  heap st !! expected = Some e →
  IsEqual a e = inr false →
  ec2.CreateRouteTable Sdk (calls st)
    (cluster.Network_Identifier (cluster.Network_ c)) = inr o →
  (∀ rt, o = Some rt → ec2.RouteTableId rt = None) →
  Apply S IsEqual Sdk r actual expected c st
  = Panic (calls st
           ++ [ec2.CreateRouteTableInput
                 (cluster.Network_Identifier (cluster.Network_ c))]).
Proof.
  intros Ha He Heq Hrt Hnone. unfold Apply. unfold_M.
  rewrite He, Ha, Heq. simpl. rewrite Hrt. simpl.
  destruct o as [rt |]; [| done]. simpl. by rewrite (Hnone rt).
Qed.

(** X15. The subnet search of Apply keeps the last match: its answer is the
    identifier of the last subnet named [name] in the last server pool named
    [name] that has one, whatever precedes it, and be it empty. *)
Theorem scanServerPools_last_match name pre sp post spre sn spost :
  cluster.ServerPool_Name sp = name →
  cluster.Subnets sp = spre ++ sn :: spost →
  cluster.Subnet_Name sn = name →
  (∀ sn', sn' ∈ spost → cluster.Subnet_Name sn' ≠ name) →
  (∀ sp' sn', sp' ∈ post → cluster.ServerPool_Name sp' = name →
              sn' ∈ cluster.Subnets sp' → cluster.Subnet_Name sn' ≠ name) →
  scanServerPools name (pre ++ sp :: post) = cluster.Subnet_Identifier sn.
Proof.
  intros Hp Hsns Hn Hspost Hpost. unfold scanServerPools.
  rewrite foldl_app. simpl. rewrite decide_True by done.
  rewrite scanPools_other by done.
  rewrite Hsns. by apply scanSubnets_last.
Qed.

End Further.

(** ** Further properties on the concrete cluster *)

Section FurtherScenarios.

Import Scenario.

(** A first Actual before the subnet is realised. *)
Lemma Actual_unidentified_subnet_witness :
  ∃ a st' (ao : RouteTable),
    Actual S (provider []) 0 (known [sp_a]) (start [r_unrealised]) = Ok a st'
    ∧ calls st' = []
    ∧ heap st' !! a = Some ao
    ∧ Name ao = "pool-a" ∧ CloudID ao = "" ∧ Tags ao = ∅.
Proof.
  destruct (Actual_unidentified_subnet S (provider []) 0 (known [sp_a])
              (start [r_unrealised]) r_unrealised (subnet "pool-a" ""))
    as (a & st' & ao & HA & Hc & _ & Ha & HN & HI & HT & _).
  - reflexivity.
  - reflexivity.
  - reflexivity.
  - reflexivity.
  - exists a, st', ao. eauto 10.
Defined.

(** Two Actual in a row, the second for another cluster and on a provider
    that knows no route table. *)
Lemma Actual_second_call_is_cached_witness :
  ∃ a st1,
    Actual S (provider [Some (remote "pool-a" "pool-a")]) 0 (known [sp_a])
           (start [r_a]) = Ok a st1
    ∧ Actual S (provider []) 0 (known [sp_b]) st1 = Ok a st1.
Proof.
  assert (∃ a st1, Actual S (provider [Some (remote "pool-a" "pool-a")]) 0
                     (known [sp_a]) (start [r_a]) = Ok a st1)
    as (a & st1 & E) by (eexists _, _; vm_compute; reflexivity).
  exists a, st1. split; [exact E |].
  exact (Actual_second_call_is_cached S
           (provider [Some (remote "pool-a" "pool-a")]) 0 (known [sp_a])
           (start [r_a]) a st1 E (known [sp_b]) (provider [])).
Defined.

(** Two Expected in a row, the second for another cluster. *)
Lemma Expected_second_call_is_cached_witness :
  ∃ e st1,
    Expected 0 (known [sp_a]) (start [r_a]) = Ok e st1
    ∧ Expected 0 (known [sp_b]) st1 = Ok e st1.
Proof.
  assert (∃ e st1, Expected 0 (known [sp_a]) (start [r_a]) = Ok e st1)
    as (e & st1 & E) by (eexists _, _; vm_compute; reflexivity).
  exists e, st1. split; [exact E |].
  exact (Expected_second_call_is_cached 0 (known [sp_a]) (start [r_a])
           e st1 E (known [sp_b])).
Defined.

(** The settled pass after Actual: the two snapshots are as they were. *)
Lemma Actual_Expected_frame_witness :
  ∃ st',
    final (Actual S (provider [Some (remote "pool-a" "pool-a")]) 0
                  (known [sp_a]) st_settled) = Some st'
    ∧ heap st' !! 1 = Some (snapshot "pool-a" "pool-a" tags_a)
    ∧ heap st' !! 2 = Some (snapshot "pool-a" "pool-a" tags_a).
Proof.
  assert (∃ st', final (Actual S (provider [Some (remote "pool-a" "pool-a")])
                               0 (known [sp_a]) st_settled) = Some st')
    as (st' & E) by (eexists; vm_compute; reflexivity).
  destruct (Actual_Expected_frame S
              (provider [Some (remote "pool-a" "pool-a")]) 0 (known [sp_a])
              st_settled st') as [HA _].
  exists st'. split; [exact E |]. split.
  - destruct (HA E 1 (snapshot "pool-a" "pool-a" tags_a) eq_refl)
      as [H | [H _]]; [exact H | discriminate H].
  - destruct (HA E 2 (snapshot "pool-a" "pool-a" tags_a) eq_refl)
      as [H | [H _]]; [exact H | discriminate H].
Defined.

(** Actual on the tagged remote route table of pool "pool-a". *)
Lemma Actual_snapshot_of_remote_witness :
  ∃ a st' (ao : RouteTable),
    Actual S (provider [Some (remote "pool-a" "pool-a")]) 0 (known [sp_a])
           (start [r_a]) = Ok a st'
    ∧ calls st' = [lookup_request "pool-a"]
    ∧ heap st' !! a = Some ao
    ∧ Name ao = "pool-a" ∧ CloudID ao = "pool-a".
Proof.
  assert (∃ a st', Actual S (provider [Some (remote "pool-a" "pool-a")]) 0
                     (known [sp_a]) (start [r_a]) = Ok a st')
    as (a & st' & E) by (eexists _, _; vm_compute; reflexivity).
  destruct (Actual_snapshot_of_remote S
              (provider [Some (remote "pool-a" "pool-a")]) 0 (known [sp_a])
              (start [r_a]) r_a sn_a a st')
    as (rt & ao & _ & Hc & Ha & HN & HI & _).
  - reflexivity.
  - reflexivity.
  - reflexivity.
  - vm_compute. discriminate.
  - exact E.
  - exists a, st', ao. eauto 10.
Defined.

(** Tagging the expected snapshot of the settled pass. *)
Lemma Tag_request_reads_back_witness :
  ∃ ts,
    sent (Tag S (provider []) 2 tags_a st_settled)
    = [ec2.CreateTagsInput ["pool-a"] ts]
    ∧ length ts = 3
    ∧ copyTags (Some <$> ts) ∅ = Some tags_a.
Proof.
  destruct (Tag_request_reads_back S (provider []) 2 tags_a st_settled
              (snapshot "pool-a" "pool-a" tags_a))
    as (ts & Hs & Hl & Hc & _).
  - reflexivity.
  - reflexivity.
  - exists ts. split; [exact Hs |]. split; [| exact Hc].
    rewrite Hl. vm_compute. reflexivity.
Defined.

(** The creating pass: all five requests, for the route table "rtb-1". *)
Lemma Apply_requests_in_order_witness :
  ∃ (n : nat) rtid gw subnetID id ts,
    sent (Apply S compare_IsEqual (provider []) 0 1 2 (known [sp_a])
                st_create)
    = take n (creationRequests S (known [sp_a]) rtid gw subnetID id ts)
    ∧ n = 5 ∧ rtid = Some id.
Proof.
  destruct (Apply_requests_in_order S compare_IsEqual (provider []) 0 1 2
              (known [sp_a]) st_create (snapshot "pool-a" "" ∅)
              (snapshot "pool-a" "pool-a" tags_a))
    as (n & rtid & gw & subnetID & id & ts & _ & Hs & Hok).
  - reflexivity.
  - reflexivity.
  - vm_compute. reflexivity.
  - assert (∃ res st', Apply S compare_IsEqual (provider []) 0 1 2
                         (known [sp_a]) st_create = Ok res st')
      as (res & st' & E) by (eexists _, _; vm_compute; reflexivity).
    destruct (Hok res st' E) as (Hn & Hid & _).
    exists n, rtid, gw, subnetID, id, ts. split; [exact Hs |]. by split.
Defined.

(** A Delete whose last request the provider refuses. *)
Lemma provider_error_is_last_answer_witness :
  (∃ st' qs q,
     Delete S provider_delete_fails 0 1 (known [sp_a]) st_settled
       = Err (TransportFault "DependencyViolation") st'
     ∧ calls st' = (calls st_settled ++ qs) ++ [q]
     ∧ respond provider_delete_fails (calls st_settled ++ qs) q
       = Some "DependencyViolation")
  ∧ (respond provider_delete_fails
             [lookup_request "pool-a";
              ec2.DisassociateRouteTableInput (Some "rtbassoc-1")]
             (ec2.DeleteRouteTableInput (Some "rtb-1"))
       = Some "DependencyViolation"
     ∧ ∃ st', Delete S provider_delete_fails 0 1 (known [sp_a]) st_settled
              = Err (TransportFault "DependencyViolation") st').
Proof.
  destruct (provider_error_is_last_answer S compare_IsEqual
              provider_delete_fails 0 1 2 (known [sp_a]) st_settled
              (Delete S provider_delete_fails 0 1 (known [sp_a]) st_settled))
    as [Hlast Hstop].
  { right. right. reflexivity. }
  split.
  - assert (∃ st', Delete S provider_delete_fails 0 1 (known [sp_a])
                          st_settled
                   = Err (TransportFault "DependencyViolation") st')
      as (st' & E) by (eexists; vm_compute; reflexivity).
    destruct (Hlast "DependencyViolation" st' E) as (qs & q & Hc & Hr).
    exists st', qs, q. by repeat split.
  - split; [reflexivity |].
    destruct (Hstop [lookup_request "pool-a";
                     ec2.DisassociateRouteTableInput (Some "rtbassoc-1")]
                    (ec2.DeleteRouteTableInput (Some "rtb-1")) []
                    "DependencyViolation") as [_ H].
    + vm_compute. reflexivity.
    + reflexivity.
    + exact H.
Defined.

(** The creating pass in a cluster whose gateway is not tagged. *)
Lemma Apply_gateway_cardinality_witness :
  Apply S compare_IsEqual provider_without_gateway 0 1 2 (known [sp_a])
        st_create
  = Err (FoundInternetGateways 0 "")
        {| heap := heap st_create;
           calls := [ec2.CreateRouteTableInput "vpc-1";
                     ec2.DescribeInternetGatewaysInput
                       (gatewayFilter S (known [sp_a]))] |}.
Proof.
  apply (Apply_gateway_cardinality S compare_IsEqual provider_without_gateway
           0 1 2 (known [sp_a]) st_create
           (snapshot "pool-a" "" ∅) (snapshot "pool-a" "pool-a" tags_a)
           r_a sp_a
           {| ec2.RouteTableId := Some "rtb-1"; ec2.Tags := [];
              ec2.Associations := [] |} "rtb-1" []).
  - reflexivity.
  - reflexivity.
  - vm_compute. reflexivity.
  - reflexivity.
  - reflexivity.
  - reflexivity.
  - reflexivity.
  - reflexivity.
  - vm_compute. discriminate.
Defined.

(** The Delete of the settled route table. *)
Lemma Delete_requests_witness :
  ∃ res st',
    Delete S (provider [Some (remote "pool-a" "pool-a")]) 0 1 (known [sp_a])
           st_settled = Ok res st'
    ∧ calls st'
      = [lookup_request "pool-a";
         ec2.DisassociateRouteTableInput (Some "rtbassoc-1");
         ec2.DeleteRouteTableInput (Some "rtb-1")].
Proof.
  assert (∃ res st', Delete S (provider [Some (remote "pool-a" "pool-a")])
                       0 1 (known [sp_a]) st_settled = Ok res st')
    as (res & st' & E) by (eexists _, _; vm_compute; reflexivity).
  destruct (Delete_requests S (provider [Some (remote "pool-a" "pool-a")])
              0 1 (known [sp_a]) st_settled r_a sn_a res st')
    as (rt & assoc & rest & Hout & Has & Hc).
  - reflexivity.
  - reflexivity.
  - exact E.
  - exists res, st'. split; [exact E |]. rewrite Hc.
    injection Hout as <-. injection Has as <- _. reflexivity.
Defined.

(** Delete given the settled snapshot and given a snapshot that names
    another route table. *)
Lemma Delete_ignores_snapshot_witness :
  sent (Delete S (provider [Some (remote "pool-a" "pool-a")]) 0 1
               (known [sp_a])
               (start [r_a; snapshot "pool-a" "pool-a" tags_a;
                       snapshot "other" "rtb-9" ∅]))
  = sent (Delete S (provider [Some (remote "pool-a" "pool-a")]) 0 2
                 (known [sp_a])
                 (start [r_a; snapshot "pool-a" "pool-a" tags_a;
                         snapshot "other" "rtb-9" ∅])).
Proof.
  apply (Delete_ignores_snapshot S
           (provider [Some (remote "pool-a" "pool-a")]) 0 1 2 (known [sp_a])
           (start [r_a; snapshot "pool-a" "pool-a" tags_a;
                   snapshot "other" "rtb-9" ∅])
           (snapshot "pool-a" "pool-a" tags_a) (snapshot "other" "rtb-9" ∅)).
  - reflexivity.
  - vm_compute. discriminate.
  - reflexivity.
  - vm_compute. discriminate.
Defined.

(** Actual, the Delete of its snapshot, and Actual again on a provider that
    no longer knows the route table. *)
Lemma Delete_leaves_cache_witness :
  ∃ a st1 st2,
    Actual S (provider [Some (remote "pool-a" "pool-a")]) 0 (known [sp_a])
           (start [r_a]) = Ok a st1
    ∧ final (Delete S (provider [Some (remote "pool-a" "pool-a")]) 0 a
                    (known [sp_a]) st1) = Some st2
    ∧ Actual S (provider []) 0 (known [sp_a]) st2 = Ok a st2.
Proof.
  assert (∃ a st1 st2,
            Actual S (provider [Some (remote "pool-a" "pool-a")]) 0
                   (known [sp_a]) (start [r_a]) = Ok a st1
            ∧ final (Delete S (provider [Some (remote "pool-a" "pool-a")]) 0 a
                            (known [sp_a]) st1) = Some st2)
    as (a & st1 & st2 & EA & ED).
  { eexists _, _, _. split; vm_compute; reflexivity. }
  exists a, st1, st2. split; [exact EA |]. split; [exact ED |].
  apply (Delete_leaves_cache S (provider [Some (remote "pool-a" "pool-a")])
           0 (known [sp_a]) (start [r_a]) a st1 st2 EA ED).
Defined.

(** The pass after the creation, in the cluster where pool and subnet are
    both "pool-a". *)
Lemma Actual_Expected_settle_witness :
  ∃ a st1 e st2,
    Actual S (provider [Some (remote "pool-a" "pool-a")]) 0 (known [sp_a])
           (start [r_a]) = Ok a st1
    ∧ Expected 0 (known [sp_a]) st1 = Ok e st2
    ∧ heap st2 !! a = heap st2 !! e
    ∧ Apply S compare_IsEqual (provider [Some (remote "pool-a" "pool-a")])
            0 a e (known [sp_a]) st2 = Ok e st2.
Proof.
  destruct (Actual_Expected_settle S compare_IsEqual
              (provider [Some (remote "pool-a" "pool-a")]) 0 (known [sp_a])
              (start [r_a]) r_a sn_a sp_a (remote "pool-a" "pool-a"))
    as (a & st1 & e & st2 & ao & eo & HA & HE & Ha & He & _ & Heq & Hap).
  - intros x. unfold compare_IsEqual. by rewrite bool_decide_eq_true_2.
  - reflexivity.
  - reflexivity.
  - reflexivity.
  - reflexivity.
  - reflexivity.
  - vm_compute. discriminate.
  - reflexivity.
  - reflexivity.
  - vm_compute. reflexivity.
  - exists a, st1, e, st2. split; [exact HA |]. split; [exact HE |].
    split; [by rewrite Ha, He, Heq | apply Hap].
Defined.

(** The creating pass associates the subnet "pool-a" of the pool "pool-a". *)
Lemma Apply_associates_namesake_subnet_witness :
  ∃ res st' sn rtid,
    Apply S compare_IsEqual (provider []) 0 1 2 (known [sp_a]) st_create
      = Ok res st'
    ∧ cluster.Subnet_Name sn = "pool-a"
    ∧ ec2.AssociateRouteTableInput (cluster.Subnet_Identifier sn) rtid
      ∈ calls st'.
Proof.
  assert (∃ res st', Apply S compare_IsEqual (provider []) 0 1 2
                       (known [sp_a]) st_create = Ok res st')
    as (res & st' & E) by (eexists _, _; vm_compute; reflexivity).
  destruct (Apply_associates_namesake_subnet S compare_IsEqual (provider [])
              0 1 2 (known [sp_a]) st_create (snapshot "pool-a" "" ∅)
              (snapshot "pool-a" "pool-a" tags_a) r_a res st')
    as (sp & sn & rtid & _ & _ & _ & Hsn & _ & Hin).
  - reflexivity.
  - reflexivity.
  - reflexivity.
  - vm_compute. reflexivity.
  - exact E.
  - exists res, st', sn, rtid. by repeat split.
Defined.

(** The creating pass on a provider that answers without identifier. *)
Lemma Apply_panics_without_table_id_witness :
  Apply S compare_IsEqual provider_without_id 0 1 2 (known [sp_a]) st_create
  = Panic [ec2.CreateRouteTableInput "vpc-1"].
Proof.
  apply (Apply_panics_without_table_id S compare_IsEqual provider_without_id
           0 1 2 (known [sp_a]) st_create
           (snapshot "pool-a" "" ∅) (snapshot "pool-a" "pool-a" tags_a)
           (Some {| ec2.RouteTableId := None; ec2.Tags := [];
                    ec2.Associations := [] |})).
  - reflexivity.
  - reflexivity.
  - vm_compute. reflexivity.
  - reflexivity.
  - intros rt Hrt. injection Hrt as <-. reflexivity.
Defined.

(** A pool with two subnets of its own name, the later one not realised:
    the search answers with the empty identifier of the later one. *)
Lemma scanServerPools_last_match_witness :
  scanServerPools "pool-a"
    ([sp_b] ++ pool "pool-a" ([subnet "pool-a" "subnet-1"]
                              ++ subnet "pool-a" "" :: [sn_b]) :: [sp_b])
  = "".
Proof.
  apply (scanServerPools_last_match "pool-a" [sp_b]
           (pool "pool-a" ([subnet "pool-a" "subnet-1"]
                           ++ subnet "pool-a" "" :: [sn_b]))
           [sp_b] [subnet "pool-a" "subnet-1"] (subnet "pool-a" "") [sn_b]).
  - reflexivity.
  - reflexivity.
  - reflexivity.
  - intros sn' Hin. apply list_elem_of_singleton in Hin as ->.
    vm_compute. discriminate.
  - intros sp' sn' Hin Hname. apply list_elem_of_singleton in Hin as ->.
    vm_compute in Hname. discriminate Hname.
Defined.

End FurtherScenarios.
